(** * HashConnect: pairing and session orchestration (src/lib/src/hashconnect.ts)

    A shallow embedding of the [HashConnect] class and of the platform
    built-ins it calls, followed by the properties established about it.

    Conventions.
    - A JavaScript string is its sequence of UTF-16 code units: [list N],
      every unit below 65536 ([js_wf]).
    - A byte buffer ([Buffer], [Uint8Array]) is a [list N] of values below 256.
    - Definitions come first (Part I), statements and proofs after (Part II). *)

From Stdlib Require Import NArith List String Ascii Lia Bool DecimalPos DecimalN.
From stdpp Require Import gmap list.

Import ListNotations.

(* ===================================================================== *)
(** * Part I: the embedding                                               *)
(* ===================================================================== *)

(** ** JavaScript strings *)

Abbreviation JsString := (list N) (only parsing).
Abbreviation Bytes := (list N) (only parsing).

(** Reads a literal of the development as a JavaScript string (one unit
    per character; the literals used here are ASCII). *)
Definition js (s : string) : JsString :=
  List.map N_of_ascii (list_ascii_of_string s).

Definition js_wf (s : JsString) : Prop := Forall (fun c => (c < 65536)%N) s.

Definition is_byte (b : N) : Prop := (b < 256)%N.

(** A Unicode scalar value: a code point that is not a surrogate. *)
Definition scalar_value (cp : N) : Prop :=
  (cp < 55296 \/ 57343 < cp < 1114112)%N.

(** A string without lone surrogates: a sequence of non-surrogate units
    and of surrogate pairs. *)
Inductive well_formed_utf16 : JsString -> Prop :=
| wf16_nil : well_formed_utf16 []
| wf16_scalar c s :
    (c < 65536)%N -> (c < 55296 \/ 57343 < c)%N ->
    well_formed_utf16 s -> well_formed_utf16 (c :: s)
| wf16_pair h l s :
    (55296 <= h <= 56319)%N -> (56320 <= l <= 57343)%N ->
    well_formed_utf16 s -> well_formed_utf16 (h :: l :: s).

(** [f] holds of the [n] numbers from [i] on (a finite check, used to
    settle facts about sextets, hexadecimal digits and bytes). *)
Fixpoint all_below (f : N -> bool) (n : nat) (i : N) : bool :=
  match n with
  | O => true
  | S n' => f i && all_below f n' (N.succ i)
  end.

(** Digits of a [Decimal.uint], most significant first, as code units. *)
Fixpoint uint_units (d : Decimal.uint) : JsString :=
  match d with
  | Decimal.Nil => []
  | Decimal.D0 d => 48%N :: uint_units d
  | Decimal.D1 d => 49%N :: uint_units d
  | Decimal.D2 d => 50%N :: uint_units d
  | Decimal.D3 d => 51%N :: uint_units d
  | Decimal.D4 d => 52%N :: uint_units d
  | Decimal.D5 d => 53%N :: uint_units d
  | Decimal.D6 d => 54%N :: uint_units d
  | Decimal.D7 d => 55%N :: uint_units d
  | Decimal.D8 d => 56%N :: uint_units d
  | Decimal.D9 d => 57%N :: uint_units d
  end.

(** [Number::toString] on a non-negative integer: what [+] does with
    [c.charCodeAt(0)] in ['&#' + c.charCodeAt(0) + ';']. *)
Definition number_to_string (n : N) : JsString := uint_units (N.to_uint n).

(** Reads a run of decimal digits back (used to state what the digits
    written by [number_to_string] denote). *)
Definition decimal_value (s : JsString) : N :=
  fold_left (fun acc c => (acc * 10 + (c - 48))%N) s 0%N.

(** ** Sanitizer: [sanitizeString], lines 248-253 *)

(** [\w] of a regular expression without the [u] flag: [A-Za-z0-9_]. *)
Definition is_word_char (c : N) : bool :=
  ((48 <=? c) && (c <=? 57) || (65 <=? c) && (c <=? 90) ||
   (c =? 95) || (97 <=? c) && (c <=? 122))%N.

(** The positive class [\w. ] of [/[^\w. ]/gi]. The [i] flag changes
    nothing: both cases of every ASCII letter are in [\w] already, and
    without the [u] flag case folding never maps a unit above 127 onto an
    ASCII one. *)
Definition in_safe_class (c : N) : bool :=
  is_word_char c || (c =? 46)%N || (c =? 32)%N.

(** One unit matches [/[^\w. ]/] when it is outside the class. *)
Definition regex_matches (c : N) : bool := negb (in_safe_class c).

(** [String.prototype.replace] with a global one-unit pattern and a
    replacer function: every matching unit is replaced, left to right. *)
Definition replace_units (matches : N -> bool) (f : N -> JsString)
    (s : JsString) : JsString :=
  flat_map (fun c => if matches c then f c else [c]) s.

(** The replacer of line 249-252:
    [function (c) { if (c == ".") return "."; return '&#' + c.charCodeAt(0) + ';'; }] *)
Definition replacer (c : N) : JsString :=
  if (c =? 46)%N then [46%N]
  else js "&#" ++ number_to_string c ++ js ";".

Definition sanitizeString (str : JsString) : JsString :=
  replace_units regex_matches replacer str.

(** The sanitizer as section 4.2 of the specification words it: a unit of
    the class [word-char, '.', space] is kept, any other becomes its
    numeric character reference. *)
Definition char_reference (c : N) : JsString :=
  js "&#" ++ number_to_string c ++ js ";".

Definition sanitize_spec (s : JsString) : JsString :=
  flat_map (fun c => if in_safe_class c then [c] else char_reference c) s.

Definition all_safe (s : JsString) : Prop :=
  Forall (fun c => in_safe_class c = true) s.

(** ** [Buffer]: UTF-8 and base64

    [Buffer.from(str)] encodes a string as UTF-8, [buf.toString()] decodes
    UTF-8, [buf.toString("base64")] and [Buffer.from(str, "base64")] are
    the base64 codec. They are platform built-ins; the models below follow
    their documented behaviour. *)

Definition is_high_surrogate (c : N) : bool := ((55296 <=? c) && (c <=? 56319))%N.
Definition is_low_surrogate (c : N) : bool := ((56320 <=? c) && (c <=? 57343))%N.

(** U+FFFD, the replacement character, in UTF-8. *)
Definition utf8_replacement : Bytes := [239; 191; 189]%N.

(** UTF-8 bytes of one code point. *)
Definition utf8_of_code_point (cp : N) : Bytes :=
  (if cp <? 128 then [cp]
   else if cp <? 2048 then [192 + cp / 64; 128 + cp mod 64]
   else if cp <? 65536 then
     [224 + cp / 4096; 128 + (cp / 64) mod 64; 128 + cp mod 64]
   else [240 + cp / 262144; 128 + (cp / 4096) mod 64;
         128 + (cp / 64) mod 64; 128 + cp mod 64])%N.

Definition code_point_of_pair (hi lo : N) : N :=
  (65536 + (hi - 55296) * 1024 + (lo - 56320))%N.

(** [Buffer.from(str)] (encoding "utf8"): a surrogate pair is one code
    point, a lone surrogate is written as U+FFFD. *)
Fixpoint utf8_encode (s : JsString) : Bytes :=
  match s with
  | [] => []
  | c :: rest =>
      if is_high_surrogate c then
        match rest with
        | d :: rest' =>
            if is_low_surrogate d
            then utf8_of_code_point (code_point_of_pair c d) ++ utf8_encode rest'
            else utf8_replacement ++ utf8_encode rest
        | [] => utf8_replacement
        end
      else if is_low_surrogate c then utf8_replacement ++ utf8_encode rest
      else utf8_of_code_point c ++ utf8_encode rest
  end.

(** State of the UTF-8 decoder inside a multi-byte sequence: the code
    point accumulated so far, the number of continuation bytes still
    expected, and the range allowed for the next byte. *)
Record Utf8State := {
  u_code_point : N;
  u_needed : nat;
  u_lower : N;
  u_upper : N
}.

Inductive Utf8Lead :=
| LeadAscii
| LeadMulti (st : Utf8State)
| LeadInvalid.

(** What a byte starts when the decoder is between sequences. *)
Definition utf8_lead (b : N) : Utf8Lead :=
  (if b <=? 127 then LeadAscii
   else if (194 <=? b) && (b <=? 223) then
     LeadMulti {| u_code_point := b - 192; u_needed := 1;
                  u_lower := 128; u_upper := 191 |}
   else if (224 <=? b) && (b <=? 239) then
     LeadMulti {| u_code_point := b - 224; u_needed := 2;
                  u_lower := if b =? 224 then 160 else 128;
                  u_upper := if b =? 237 then 159 else 191 |}
   else if (240 <=? b) && (b <=? 244) then
     LeadMulti {| u_code_point := b - 240; u_needed := 3;
                  u_lower := if b =? 240 then 144 else 128;
                  u_upper := if b =? 244 then 143 else 191 |}
   else LeadInvalid)%N.

(** UTF-16 units of a decoded code point. *)
Definition utf16_of_code_point (cp : N) : JsString :=
  (if cp <? 65536 then [cp]
   else [55296 + (cp - 65536) / 1024; 56320 + (cp - 65536) mod 1024])%N.

(** [buf.toString()] (encoding "utf8"): every maximal ill-formed
    subsequence decodes to one U+FFFD, and the byte that ended it is
    read again as the start of a sequence. *)
Fixpoint utf8_decode_from (st : option Utf8State) (bs : Bytes) : JsString :=
  match bs with
  | [] => match st with None => [] | Some _ => [65533%N] end
  | b :: rest =>
      let start :=
        match utf8_lead b with
        | LeadAscii => b :: utf8_decode_from None rest
        | LeadMulti st' => utf8_decode_from (Some st') rest
        | LeadInvalid => 65533%N :: utf8_decode_from None rest
        end in
      match st with
      | None => start
      | Some st =>
          if ((u_lower st <=? b) && (b <=? u_upper st))%N then
            let cp := (u_code_point st * 64 + (b - 128))%N in
            match u_needed st with
            | 0%nat | 1%nat => utf16_of_code_point cp ++ utf8_decode_from None rest
            | S n => utf8_decode_from
                       (Some {| u_code_point := cp; u_needed := n;
                                u_lower := 128; u_upper := 191 |}) rest
            end
          else 65533%N :: start
      end
  end.

Definition utf8_decode (bs : Bytes) : JsString := utf8_decode_from None bs.

(** The base64 alphabet: sextet to character. *)
Definition base64_char (i : N) : N :=
  (if i <? 26 then 65 + i
   else if i <? 52 then 97 + (i - 26)
   else if i <? 62 then 48 + (i - 52)
   else if i =? 62 then 43 else 47)%N.

(** [buf.toString("base64")]: standard alphabet, padded with [=]. *)
Fixpoint base64_encode (bs : Bytes) : JsString :=
  match bs with
  | [] => []
  | [a] => [base64_char (a / 4); base64_char ((a mod 4) * 16); 61; 61]%N
  | [a; b] =>
      [base64_char (a / 4); base64_char ((a mod 4) * 16 + b / 16);
       base64_char ((b mod 16) * 4); 61]%N
  | a :: b :: c :: rest =>
      [base64_char (a / 4); base64_char ((a mod 4) * 16 + b / 16);
       base64_char ((b mod 16) * 4 + c / 64); base64_char (c mod 64)]%N
      ++ base64_encode rest
  end.

(** Character to sextet; the decoder also accepts the URL-safe [-] and [_]. *)
Definition unbase64 (c : N) : option N :=
  (if (65 <=? c) && (c <=? 90) then Some (c - 65)
   else if (97 <=? c) && (c <=? 122) then Some (c - 97 + 26)
   else if (48 <=? c) && (c <=? 57) then Some (c - 48 + 52)
   else if (c =? 43) || (c =? 45) then Some 62
   else if (c =? 47) || (c =? 95) then Some 63
   else None)%N.

(** The sextets the decoder reads: it stops at the first [=] and skips
    every unit that is not in the alphabet. It never rejects its input. *)
Fixpoint base64_sextets (s : JsString) : list N :=
  match s with
  | [] => []
  | c :: rest =>
      if (c =? 61)%N then []
      else match unbase64 c with
           | Some v => v :: base64_sextets rest
           | None => base64_sextets rest
           end
  end.

(** Four sextets make three bytes; a final group of three makes two, of
    two makes one, and a single left-over sextet is dropped. *)
Fixpoint base64_bytes (l : list N) : Bytes :=
  match l with
  | a :: b :: c :: d :: rest =>
      [a * 4 + b / 16; (b mod 16) * 16 + c / 4; (c mod 4) * 64 + d]%N
      ++ base64_bytes rest
  | [a; b; c] => [a * 4 + b / 16; (b mod 16) * 16 + c / 4]%N
  | [a; b] => [a * 4 + b / 16]%N
  | _ => []
  end.

(** [Buffer.from(str, "base64")]. *)
Definition base64_decode (s : JsString) : Bytes :=
  base64_bytes (base64_sextets s).

(** ** [JSON]

    A JavaScript value that JSON can carry. A number is kept as the
    literal that denotes it (its floating-point value is not needed here);
    an object is the list of its own properties in the order it
    enumerates them (no object of this class has a key that is an array
    index, which JavaScript would enumerate first). *)
#[warnings="-register-all"]
Inductive JSON :=
| JNull
| JBool (b : bool)
| JNumber (literal : JsString)
| JString (s : JsString)
| JArray (items : list JSON)
| JObject (members : list (JsString * JSON)).

Fixpoint js_eqb (a b : JsString) : bool :=
  match a, b with
  | [], [] => true
  | x :: a', y :: b' => (x =? y)%N && js_eqb a' b'
  | _, _ => false
  end.

(** *** [JSON.stringify] *)

Definition hex_digit (n : N) : N :=
  (if n <? 10 then 48 + n else 97 + (n - 10))%N.

(** [\uXXXX], four lower-case hexadecimal digits. *)
Definition unicode_escape (c : N) : JsString :=
  [92; 117; hex_digit (c / 4096); hex_digit ((c / 256) mod 16);
   hex_digit ((c / 16) mod 16); hex_digit (c mod 16)]%N.

(** One non-surrogate unit inside a JSON string literal. *)
Definition quote_unit (c : N) : JsString :=
  (if c =? 8 then [92; 98]
   else if c =? 9 then [92; 116]
   else if c =? 10 then [92; 110]
   else if c =? 12 then [92; 102]
   else if c =? 13 then [92; 114]
   else if c =? 34 then [92; 34]
   else if c =? 92 then [92; 92]
   else if c <? 32 then unicode_escape c
   else [c])%N.

(** [QuoteJSONString] without the enclosing quotes: a surrogate pair is
    copied, a lone surrogate is escaped (well-formed [JSON.stringify]). *)
Fixpoint quote_body (s : JsString) : JsString :=
  match s with
  | [] => []
  | c :: rest =>
      if is_high_surrogate c then
        match rest with
        | d :: rest' =>
            if is_low_surrogate d then c :: d :: quote_body rest'
            else unicode_escape c ++ quote_body rest
        | [] => unicode_escape c
        end
      else if is_low_surrogate c then unicode_escape c ++ quote_body rest
      else quote_unit c ++ quote_body rest
  end.

Definition quote (s : JsString) : JsString := 34%N :: quote_body s ++ [34%N].

Fixpoint join_comma (parts : list JsString) : JsString :=
  match parts with
  | [] => []
  | [x] => x
  | x :: rest => x ++ 44%N :: join_comma rest
  end.

Fixpoint JSON_stringify (v : JSON) : JsString :=
  match v with
  | JNull => js "null"
  | JBool true => js "true"
  | JBool false => js "false"
  | JNumber l => l
  | JString s => quote s
  | JArray items => 91%N :: join_comma (List.map JSON_stringify items) ++ [93%N]
  | JObject members =>
      123%N :: join_comma (List.map (fun kv : JsString * JSON =>
                   quote (fst kv) ++ 58%N :: JSON_stringify (snd kv)) members)
      ++ [125%N]
  end.

(** *** [JSON.parse] *)

Inductive ParseResult (A : Type) :=
| Parsed (v : A) (rest : JsString)
| SyntaxErr
| OutOfFuel.
Arguments Parsed {A} v rest.
Arguments SyntaxErr {A}.
Arguments OutOfFuel {A}.

Definition is_ws (c : N) : bool :=
  ((c =? 9) || (c =? 10) || (c =? 13) || (c =? 32))%N.

Fixpoint skip_ws (s : JsString) : JsString :=
  match s with
  | c :: rest => if is_ws c then skip_ws rest else s
  | [] => []
  end.

(** The rest of the input when it starts with unit [c]. *)
Definition expect (c : N) (s : JsString) : option JsString :=
  match s with
  | x :: rest => if (x =? c)%N then Some rest else None
  | [] => None
  end.

Fixpoint expect_all (lit s : JsString) : option JsString :=
  match lit with
  | [] => Some s
  | c :: lit' =>
      match expect c s with
      | Some rest => expect_all lit' rest
      | None => None
      end
  end.

Definition hex_value (c : N) : option N :=
  (if (48 <=? c) && (c <=? 57) then Some (c - 48)
   else if (97 <=? c) && (c <=? 102) then Some (c - 97 + 10)
   else if (65 <=? c) && (c <=? 70) then Some (c - 65 + 10)
   else None)%N.

Definition hex4 (a b c d : N) : option N :=
  match hex_value a, hex_value b, hex_value c, hex_value d with
  | Some x, Some y, Some z, Some w => Some (((x * 16 + y) * 16 + z) * 16 + w)%N
  | _, _, _, _ => None
  end.

(** The unit a two-character escape stands for. *)
Definition simple_escape (e : N) : option N :=
  (if e =? 34 then Some 34
   else if e =? 92 then Some 92
   else if e =? 47 then Some 47
   else if e =? 98 then Some 8
   else if e =? 102 then Some 12
   else if e =? 110 then Some 10
   else if e =? 114 then Some 13
   else if e =? 116 then Some 9
   else None)%N.

Definition cons_unit (c : N) (r : option (JsString * JsString))
    : option (JsString * JsString) :=
  match r with
  | Some (str, rest) => Some (c :: str, rest)
  | None => None
  end.

(** A string literal after its opening quote: its value and what follows
    the closing quote; [None] on a malformed or unterminated literal. *)
Fixpoint lex_string_body (s : JsString) : option (JsString * JsString) :=
  match s with
  | [] => None
  | c :: r =>
      if (c =? 34)%N then Some ([], r)
      else if (c =? 92)%N then
        match r with
        | [] => None
        | e :: r' =>
            if (e =? 117)%N then
              match r' with
              | h1 :: h2 :: h3 :: h4 :: r'' =>
                  match hex4 h1 h2 h3 h4 with
                  | Some u => cons_unit u (lex_string_body r'')
                  | None => None
                  end
              | _ => None
              end
            else
              match simple_escape e with
              | Some u => cons_unit u (lex_string_body r')
              | None => None
              end
        end
      else if (c <? 32)%N then None
      else cons_unit c (lex_string_body r)
  end.

Definition is_digit (c : N) : bool := ((48 <=? c) && (c <=? 57))%N.

Fixpoint span_digits (s : JsString) : JsString * JsString :=
  match s with
  | c :: rest =>
      if is_digit c then
        let '(ds, r) := span_digits rest in (c :: ds, r)
      else ([], s)
  | [] => ([], [])
  end.

(** A number literal: an optional minus sign; a single 0 or a digit 1-9
    followed by digits; an optional fraction (a dot and at least one
    digit); an optional exponent (e or E, an optional sign, at least one
    digit). Each part returns what it read and what follows. *)
Definition lex_sign (s : JsString) : JsString * JsString :=
  match s with
  | c :: r => if (c =? 45)%N then ([c], r) else ([], s)
  | [] => ([], s)
  end.

Definition lex_int (s : JsString) : option (JsString * JsString) :=
  match s with
  | [] => None
  | c :: r =>
      if negb (is_digit c) then None
      else if (c =? 48)%N then Some ([c], r)
      else let '(ds, r') := span_digits r in Some (c :: ds, r')
  end.

Definition lex_frac (s : JsString) : option (JsString * JsString) :=
  match s with
  | d :: r =>
      if (d =? 46)%N then
        match span_digits r with
        | ([], _) => None
        | (ds, r') => Some (d :: ds, r')
        end
      else Some ([], s)
  | [] => Some ([], s)
  end.

Definition lex_exp (s : JsString) : option (JsString * JsString) :=
  match s with
  | e :: r =>
      if (e =? 101)%N || (e =? 69)%N then
        let '(esign, r1) :=
          match r with
          | g :: r' => if (g =? 43)%N || (g =? 45)%N then ([g], r') else ([], r)
          | [] => ([], r)
          end in
        match span_digits r1 with
        | ([], _) => None
        | (ds, r2) => Some (e :: esign ++ ds, r2)
        end
      else Some ([], s)
  | [] => Some ([], s)
  end.

Definition lex_number (s : JsString) : option (JsString * JsString) :=
  let '(sign, s1) := lex_sign s in
  match lex_int s1 with
  | None => None
  | Some (int_part, s2) =>
      match lex_frac s2 with
      | None => None
      | Some (frac_part, s3) =>
          match lex_exp s3 with
          | None => None
          | Some (exp_part, s4) =>
              Some (sign ++ int_part ++ frac_part ++ exp_part, s4)
          end
      end
  end.

(** Defining a property: a repeated key keeps its place and takes the
    later value. *)
Fixpoint obj_set (k : JsString) (v : JSON) (m : list (JsString * JSON))
    : list (JsString * JSON) :=
  match m with
  | [] => [(k, v)]
  | (k', v') :: m' =>
      if js_eqb k k' then (k, v) :: m' else (k', v') :: obj_set k v m'
  end.

Definition literal_value (lit : JsString) (v : JSON) (s : JsString)
    : ParseResult JSON :=
  match expect_all lit s with
  | Some rest => Parsed v rest
  | None => SyntaxErr
  end.

(** The recursive-descent grammar of JSON text. [fuel] bounds the number
    of nested calls; [JSON_parse] supplies more than any input can use
    ([parse_value_fuel] in Part II). *)
Fixpoint parse_value (fuel : nat) (s : JsString) {struct fuel}
    : ParseResult JSON :=
  match fuel with
  | O => OutOfFuel
  | S fuel =>
      match skip_ws s with
      | [] => SyntaxErr
      | c :: r =>
          if (c =? 123)%N then
            match expect 125 (skip_ws r) with
            | Some r' => Parsed (JObject []) r'
            | None =>
                match parse_members fuel [] r with
                | Parsed m r' => Parsed (JObject m) r'
                | SyntaxErr => SyntaxErr
                | OutOfFuel => OutOfFuel
                end
            end
          else if (c =? 91)%N then
            match expect 93 (skip_ws r) with
            | Some r' => Parsed (JArray []) r'
            | None =>
                match parse_elements fuel [] r with
                | Parsed l r' => Parsed (JArray l) r'
                | SyntaxErr => SyntaxErr
                | OutOfFuel => OutOfFuel
                end
            end
          else if (c =? 34)%N then
            match lex_string_body r with
            | Some (str, r') => Parsed (JString str) r'
            | None => SyntaxErr
            end
          else if (c =? 116)%N then literal_value (js "true") (JBool true) (c :: r)
          else if (c =? 102)%N then literal_value (js "false") (JBool false) (c :: r)
          else if (c =? 110)%N then literal_value (js "null") JNull (c :: r)
          else
            match lex_number (c :: r) with
            | Some (lit, r') => Parsed (JNumber lit) r'
            | None => SyntaxErr
            end
      end
  end
with parse_members (fuel : nat) (acc : list (JsString * JSON)) (s : JsString)
    {struct fuel} : ParseResult (list (JsString * JSON)) :=
  match fuel with
  | O => OutOfFuel
  | S fuel =>
      match expect 34 (skip_ws s) with
      | None => SyntaxErr
      | Some r =>
          match lex_string_body r with
          | None => SyntaxErr
          | Some (k, r1) =>
              match expect 58 (skip_ws r1) with
              | None => SyntaxErr
              | Some r2 =>
                  match parse_value fuel r2 with
                  | Parsed v r3 =>
                      match skip_ws r3 with
                      | [] => SyntaxErr
                      | c :: r4 =>
                          if (c =? 44)%N
                          then parse_members fuel (obj_set k v acc) r4
                          else if (c =? 125)%N
                          then Parsed (obj_set k v acc) r4
                          else SyntaxErr
                      end
                  | SyntaxErr => SyntaxErr
                  | OutOfFuel => OutOfFuel
                  end
              end
          end
      end
  end
with parse_elements (fuel : nat) (acc : list JSON) (s : JsString)
    {struct fuel} : ParseResult (list JSON) :=
  match fuel with
  | O => OutOfFuel
  | S fuel =>
      match parse_value fuel s with
      | Parsed v r1 =>
          match skip_ws r1 with
          | [] => SyntaxErr
          | c :: r2 =>
              if (c =? 44)%N then parse_elements fuel (acc ++ [v]) r2
              else if (c =? 93)%N then Parsed (acc ++ [v]) r2
              else SyntaxErr
          end
      | SyntaxErr => SyntaxErr
      | OutOfFuel => OutOfFuel
      end
  end.

(** [JSON.parse(text)]: the value of the whole text, or [None] where
    [JSON.parse] throws a [SyntaxError]. *)
Definition JSON_parse (text : JsString) : option JSON :=
  match parse_value (S (2 * length text)) text with
  | Parsed v rest =>
      match skip_ws rest with
      | [] => Some v
      | _ :: _ => None
      end
  | SyntaxErr | OutOfFuel => None
  end.

(** *** Values that [JSON.stringify] writes and [JSON.parse] reads back

    The values made of strings, booleans, [null], arrays and objects
    with distinct keys. *)

Definition member_text (kv : JsString * JSON) : JsString :=
  quote (fst kv) ++ 58%N :: JSON_stringify (snd kv).

Fixpoint json_size (v : JSON) : nat :=
  match v with
  | JArray items => S (fold_right (fun x n => S (json_size x + n)) 0 items)
  | JObject members =>
      S (fold_right (fun kv n => S (json_size (snd kv) + n)) 0 members)
  | _ => 1
  end.

Definition elements_size (items : list JSON) : nat :=
  fold_right (fun x n => S (json_size x + n)) 0 items.

Definition members_size (members : list (JsString * JSON)) : nat :=
  fold_right (fun kv n => S (json_size (snd kv) + n)) 0 members.

#[warnings="-register-all"]
Inductive json_ok : JSON -> Prop :=
| ok_null : json_ok JNull
| ok_bool b : json_ok (JBool b)
| ok_string s : js_wf s -> json_ok (JString s)
| ok_array items : Forall json_ok items -> json_ok (JArray items)
| ok_object members :
    Forall (fun kv => js_wf (fst kv) /\ json_ok (snd kv)) members ->
    List.NoDup (List.map fst members) ->
    json_ok (JObject members).

(** ** Data model *)

(** Modelled from the spec: [HashConnectTypes.AppMetadata] and
    [HashConnectTypes.WalletMetadata] (types/hashconnect.ts is not part of
    the sources). Section 3: [{ name, description, icon, url?, publicKey? }];
    an optional property that is absent or [undefined] is [None]. *)
Record Metadata := {
  md_name : JsString;
  md_description : JsString;
  md_icon : JsString;
  md_url : option JsString;
  md_publicKey : option JsString
}.

(** Modelled from the spec: [HashConnectTypes.ConnectionState],
    [{ topic, expires }]. *)
Record ConnectionState := {
  cs_topic : JsString;
  cs_expires : N
}.

(** Modelled from the spec: [HashConnectTypes.PairingData],
    [{ metadata, topic, network, multiAccount }]. *)
Record PairingData := {
  pd_metadata : Metadata;
  pd_topic : JsString;
  pd_network : JsString;
  pd_multiAccount : bool
}.

(** Modelled from the spec: [HashConnectTypes.InitilizationData]; the
    source builds it as [{ privKey: this.privateKey }] (line 64-66). *)
Record InitilizationData := {
  id_privKey : JsString
}.

(** [transaction.byteArray] holds raw bytes before [sendTransaction] and
    text after it (line 119). *)
Inductive ByteArray :=
| RawBytes (b : Bytes)
| Text (s : JsString).

(** Modelled from the spec: [MessageTypes.Transaction] (message.ts is not
    part of the sources), section 3: [Transaction{byteArray, topic, ...}].
    The properties the specification leaves open are carried along as
    [tx_other]. *)
Record Transaction := {
  tx_topic : JsString;
  tx_byteArray : ByteArray;
  tx_other : list (JsString * JSON)
}.

(** Modelled from the spec: [MessageTypes.ApprovePairing],
    [ApprovePairing{metadata, topic, accountIds, network}]. *)
Record ApprovePairing := {
  ap_metadata : Metadata;
  ap_topic : JsString;
  ap_accountIds : list JsString;
  ap_network : JsString
}.

(** Modelled from the spec: [MessageTypes.Acknowledge],
    [Acknowledge{result, topic, msg_id}]. *)
Record Acknowledge := {
  ack_result : bool;
  ack_topic : JsString;
  ack_msg_id : JsString
}.

(** Modelled from the spec: [MessageTypes.Rejected],
    [Rejected{reason, topic, msg_id}]. *)
Record Rejected := {
  rej_reason : JsString;
  rej_topic : JsString;
  rej_msg_id : JsString
}.

(** Modelled from the spec: [MessageTypes.AdditionalAccountResponse],
    [AdditionalAccountResponse{accountIds, topic}]. *)
Record AdditionalAccountResponse := {
  aar_accountIds : list JsString;
  aar_topic : JsString
}.

(** Modelled from the spec: the tags of [RelayMessageType] that the
    source names. *)
Inductive RelayMessageType :=
| MsgTransaction
| MsgTransactionResponse
| MsgApprovePairing
| MsgRejectPairing
| MsgAcknowledge
| MsgAdditionalAccountRequest
| MsgAdditionalAccountResponse.

(** The body handed to [prepareSimpleMessage], as it is at the call. *)
Inductive MessageBody :=
| BodyTransaction (t : Transaction)
| BodyTransactionResponse (r : JSON)
| BodyApprovePairing (a : ApprovePairing)
| BodyRejected (r : Rejected)
| BodyAcknowledge (a : Acknowledge)
| BodyAdditionalAccountRequest (r : JSON)
| BodyAdditionalAccountResponse (r : AdditionalAccountResponse).

(** Modelled from the spec: the envelope [prepareSimpleMessage(type, body,
    context)] returns, [envelope{id, ...}] (section 6): its correlation
    id, its type tag and its body. *)
Record Envelope := {
  env_id : JsString;
  env_type : RelayMessageType;
  env_body : MessageBody
}.

(** ** Errors and outcomes *)

(** What an operation can throw, or reject its promise with. The last two
    are the error kinds of section 7 that the specification asks for. *)
Inductive Error :=
| TypeError
| ReferenceError
| SyntaxError
| TransportFailure (reason : JsString)
| UnregisteredCounterpartyKey
| MalformedPairingString.

(** The result of a call: a returned value (a promise that resolves) or
    a thrown error (a promise that rejects). *)
Inductive Outcome (A : Type) :=
| Returned (a : A)
| Thrown (e : Error).
Arguments Returned {A} a.
Arguments Thrown {A} e.

(** ** Collaborators *)

(** A call the instance makes on [this.relay]. *)
Inductive RelayCall :=
| RelayInit
| RelayAddDecryptionKey (privateKey : JsString)
| RelaySubscribe (topic : JsString)
| RelayPublish (topic : JsString) (message : Envelope)
    (pubKey : option JsString).

(** The global [window]: not declared at all (reading it throws a
    [ReferenceError]), declared with a falsy value, or a page's window
    with its [location.origin]. *)
Inductive WindowGlobal :=
| WindowUndeclared
| WindowFalsy
| WindowObject (origin : JsString).

(** Everything outside the class: the ambient [window], the key functions
    of js-waku, the random topic ids and message ids of [MessageUtil], and
    the relay. [relay_answer log call] is what the relay's promise for
    [call] does after the calls of [log]: [None] when it resolves,
    [Some reason] when it rejects. *)
Record Platform := {
  window : WindowGlobal;
  getPublicKey : Bytes -> Bytes;
  generatePrivateKey : nat -> Bytes;
  createRandomTopicId : nat -> JsString;
  message_id : nat -> JsString;
  relay_answer : list RelayCall -> RelayCall -> option JsString
}.

(** ** State *)

(** A reference to an object held by a caller. *)
Abbreviation Loc := nat (only parsing).

(** The instance ([metadata], [publicKeys], [privateKey]) together with
    what it shares with its callers: the objects passed to it by
    reference ([metadata_objects], [transaction_objects]), the calls made
    on the relay so far, and how many envelopes and random values were
    produced. A property of [publicKeys] can hold [undefined] ([None]):
    lines 86 and 170 store [publicKey as string] unchecked. *)
Record State := {
  metadata : option Loc;
  publicKeys : gmap (list N) (option (list N));
  privateKey : option JsString;
  metadata_objects : gmap Loc Metadata;
  transaction_objects : gmap Loc Transaction;
  relay_log : list RelayCall;
  prepared : nat;
  drawn : nat
}.

(** [this.publicKeys[topic]]: [undefined] when nothing is registered. *)
Definition registered_key (s : State) (topic : JsString) : option JsString :=
  match publicKeys s !! topic with
  | Some k => k
  | None => None
  end.

(** A computation of the class: it reads and updates the state and
    returns or throws. *)
Definition M (A : Type) : Type := State -> Outcome A * State.

Definition ret {A} (a : A) : M A := fun s => (Returned a, s).

Definition throw {A} (e : Error) : M A := fun s => (Thrown e, s).

Definition bind {A B} (m : M A) (k : A -> M B) : M B :=
  fun s =>
    match m s with
    | (Returned a, s') => k a s'
    | (Thrown e, s') => (Thrown e, s')
    end.

Declare Scope hc_scope.
Delimit Scope hc_scope with hc.
Notation "x <- m ;; k" := (bind m (fun x => k))
  (at level 100, m at next level, right associativity) : hc_scope.
Notation "m ;;; k" := (bind m (fun _ => k))
  (at level 100, right associativity) : hc_scope.

Definition gets {A} (f : State -> A) : M A := fun s => (Returned (f s), s).

Definition modify (f : State -> State) : M unit := fun s => (Returned tt, f s).

Definition set_metadata (r : option Loc) (s : State) : State :=
  {| metadata := r; publicKeys := publicKeys s; privateKey := privateKey s;
     metadata_objects := metadata_objects s;
     transaction_objects := transaction_objects s;
     relay_log := relay_log s; prepared := prepared s; drawn := drawn s |}.

Definition set_publicKeys (m : gmap (list N) (option (list N))) (s : State)
    : State :=
  {| metadata := metadata s; publicKeys := m; privateKey := privateKey s;
     metadata_objects := metadata_objects s;
     transaction_objects := transaction_objects s;
     relay_log := relay_log s; prepared := prepared s; drawn := drawn s |}.

Definition set_privateKey (k : option JsString) (s : State) : State :=
  {| metadata := metadata s; publicKeys := publicKeys s; privateKey := k;
     metadata_objects := metadata_objects s;
     transaction_objects := transaction_objects s;
     relay_log := relay_log s; prepared := prepared s; drawn := drawn s |}.

Definition set_metadata_objects (h : gmap Loc Metadata) (s : State) : State :=
  {| metadata := metadata s; publicKeys := publicKeys s;
     privateKey := privateKey s; metadata_objects := h;
     transaction_objects := transaction_objects s;
     relay_log := relay_log s; prepared := prepared s; drawn := drawn s |}.

Definition set_transaction_objects (h : gmap Loc Transaction) (s : State)
    : State :=
  {| metadata := metadata s; publicKeys := publicKeys s;
     privateKey := privateKey s; metadata_objects := metadata_objects s;
     transaction_objects := h;
     relay_log := relay_log s; prepared := prepared s; drawn := drawn s |}.

Definition set_relay_log (l : list RelayCall) (s : State) : State :=
  {| metadata := metadata s; publicKeys := publicKeys s;
     privateKey := privateKey s; metadata_objects := metadata_objects s;
     transaction_objects := transaction_objects s;
     relay_log := l; prepared := prepared s; drawn := drawn s |}.

Definition set_prepared (n : nat) (s : State) : State :=
  {| metadata := metadata s; publicKeys := publicKeys s;
     privateKey := privateKey s; metadata_objects := metadata_objects s;
     transaction_objects := transaction_objects s;
     relay_log := relay_log s; prepared := n; drawn := drawn s |}.

Definition set_drawn (n : nat) (s : State) : State :=
  {| metadata := metadata s; publicKeys := publicKeys s;
     privateKey := privateKey s; metadata_objects := metadata_objects s;
     transaction_objects := transaction_objects s;
     relay_log := relay_log s; prepared := prepared s; drawn := n |}.

(** The state of [new HashConnect()] whose callers hold the given objects. *)
Definition new_HashConnect (mds : gmap Loc Metadata)
    (txs : gmap Loc Transaction) : State :=
  {| metadata := None; publicKeys := ∅; privateKey := None;
     metadata_objects := mds; transaction_objects := txs;
     relay_log := []; prepared := 0; drawn := 0 |}.

(** Reading a property of the object behind a reference; a reference to
    nothing is [undefined], and reading a property of it throws. *)
Definition read_metadata (r : option Loc) : M Metadata :=
  fun s =>
    match r with
    | Some l =>
        match metadata_objects s !! l with
        | Some m => (Returned m, s)
        | None => (Thrown TypeError, s)
        end
    | None => (Thrown TypeError, s)
    end.

(** Assigning to properties of the object behind a reference: the object
    itself changes, for every holder of the reference. *)
Definition update_metadata (r : option Loc) (f : Metadata -> Metadata)
    : M unit :=
  (m <- read_metadata r ;;
   match r with
   | Some l =>
       modify (fun s =>
         set_metadata_objects (<[l := f m]> (metadata_objects s)) s)
   | None => throw TypeError
   end)%hc.

Definition with_name (v : JsString) (m : Metadata) : Metadata :=
  {| md_name := v; md_description := md_description m; md_icon := md_icon m;
     md_url := md_url m; md_publicKey := md_publicKey m |}.

Definition with_description (v : JsString) (m : Metadata) : Metadata :=
  {| md_name := md_name m; md_description := v; md_icon := md_icon m;
     md_url := md_url m; md_publicKey := md_publicKey m |}.

Definition with_url (v : option JsString) (m : Metadata) : Metadata :=
  {| md_name := md_name m; md_description := md_description m;
     md_icon := md_icon m; md_url := v; md_publicKey := md_publicKey m |}.

Definition with_publicKey (v : option JsString) (m : Metadata) : Metadata :=
  {| md_name := md_name m; md_description := md_description m;
     md_icon := md_icon m; md_url := md_url m; md_publicKey := v |}.

Definition read_transaction (r : Loc) : M Transaction :=
  fun s =>
    match transaction_objects s !! r with
    | Some t => (Returned t, s)
    | None => (Thrown TypeError, s)
    end.

Definition with_byteArray (v : ByteArray) (t : Transaction) : Transaction :=
  {| tx_topic := tx_topic t; tx_byteArray := v; tx_other := tx_other t |}.

(** [this.sanitizeString(x!)] on an optional property: [undefined.replace]
    throws. *)
Definition sanitize_optional (v : option JsString) : M JsString :=
  match v with
  | Some str => ret (sanitizeString str)
  | None => throw TypeError
  end.

(** [Buffer.from(x)] for a byte array or a string. *)
Definition Buffer_from (v : ByteArray) : Bytes :=
  match v with
  | RawBytes b => b
  | Text str => utf8_encode str
  end.

(** A JavaScript string is falsy when it is [undefined] or empty. *)
Definition falsy (v : option JsString) : bool :=
  match v with
  | None | Some [] => true
  | Some (_ :: _) => false
  end.

(** ** The class [HashConnect]

    [console.log] lines (under [this.debug]) have no effect on what is
    modelled and are left out; so are the event channels, which none of
    the operations below touches. *)

Section HashConnect.

Context (P : Platform).

Local Open Scope hc_scope.

(** [await this.relay.<call>]: the call is made, and a rejection of its
    promise is thrown at the [await]. *)
Definition relay_await (c : RelayCall) : M unit :=
  fun s =>
    let s' := set_relay_log (relay_log s ++ [c]) s in
    match relay_answer P (relay_log s) c with
    | None => (Returned tt, s')
    | Some reason => (Thrown (TransportFailure reason), s')
    end.

(** [this.relay.<call>] without [await]: the call is made, and what it
    returns (for [publish], a promise) is dropped, whatever becomes of it. *)
Definition relay_call (c : RelayCall) : M unit :=
  modify (fun s => set_relay_log (relay_log s ++ [c]) s).

(** Modelled from the spec: [MessageUtil.prepareSimpleMessage(type, body,
    context)] (message.ts is not part of the sources) returns an envelope
    with a fresh id around the body as it is at the call. *)
Definition prepareSimpleMessage (type : RelayMessageType) (body : MessageBody)
    : M Envelope :=
  fun s =>
    (Returned {| env_id := message_id P (prepared s);
                 env_type := type; env_body := body |},
     set_prepared (S (prepared s)) s).

(** Lines 239-246. *)
Definition generateEncryptionKeys : M JsString :=
  fun s =>
    (Returned (base64_encode (generatePrivateKey P (drawn s))),
     set_drawn (S (drawn s)) s).

(** Lines 52-76. [md] is the caller's [metadata] object. *)
Definition init (md : Loc) (privKey : option JsString)
    : M InitilizationData :=
  modify (set_metadata (Some md)) ;;;
  key <- (if falsy privKey then generateEncryptionKeys
          else ret (default [] privKey)) ;;
  modify (set_privateKey (Some key)) ;;;
  update_metadata (Some md)
    (with_publicKey
       (Some (base64_encode (getPublicKey P (base64_decode key))))) ;;;
  let initData := {| id_privKey := key |} in
  match window P with
  | WindowUndeclared => throw ReferenceError
  | WindowFalsy => ret tt
  | WindowObject origin =>
      this_metadata <- gets metadata ;;
      update_metadata this_metadata (with_url (Some origin))
  end ;;;
  relay_await RelayInit ;;;
  relay_call (RelayAddDecryptionKey key) ;;;
  ret initData.

(** Lines 79-97. *)
Definition connect (topic : option JsString)
    (metadataToConnect : option Metadata) : M ConnectionState :=
  topic <- (if falsy topic then
              fun s => (Returned (createRandomTopicId P (drawn s)),
                        set_drawn (S (drawn s)) s)
            else ret (default [] topic)) ;;
  match metadataToConnect with
  | Some md =>
      modify (fun s =>
        set_publicKeys (<[topic := md_publicKey md]> (publicKeys s)) s)
  | None => ret tt
  end ;;;
  let state := {| cs_topic := topic; cs_expires := 0 |} in
  relay_await (RelaySubscribe (cs_topic state)) ;;;
  ret state.

(** Lines 118-125. [transaction] is the caller's object. *)
Definition sendTransaction (topic : JsString) (transaction : Loc)
    : M JsString :=
  tx <- read_transaction transaction ;;
  modify (fun s =>
    set_transaction_objects
      (<[transaction :=
           with_byteArray
             (Text (base64_encode (Buffer_from (tx_byteArray tx)))) tx]>
         (transaction_objects s)) s) ;;;
  tx' <- read_transaction transaction ;;
  msg <- prepareSimpleMessage MsgTransaction (BodyTransaction tx') ;;
  key <- gets (fun s => registered_key s topic) ;;
  relay_await (RelayPublish topic msg key) ;;;
  ret (env_id msg).

(** Lines 127-133. *)
Definition requestAdditionalAccounts (topic : JsString) (message : JSON)
    : M JsString :=
  msg <- prepareSimpleMessage MsgAdditionalAccountRequest
           (BodyAdditionalAccountRequest message) ;;
  key <- gets (fun s => registered_key s topic) ;;
  relay_await (RelayPublish topic msg key) ;;;
  ret (env_id msg).

(** Lines 135-143. *)
Definition sendAdditionalAccounts (topic : JsString)
    (message : AdditionalAccountResponse) : M JsString :=
  let message :=
    {| aar_accountIds := List.map (fun id => id) (aar_accountIds message);
       aar_topic := aar_topic message |} in
  msg <- prepareSimpleMessage MsgAdditionalAccountResponse
           (BodyAdditionalAccountResponse message) ;;
  key <- gets (fun s => registered_key s topic) ;;
  relay_await (RelayPublish topic msg key) ;;;
  ret (env_id msg).

(** Lines 145-151. *)
Definition sendTransactionResponse (topic : JsString) (message : JSON)
    : M JsString :=
  msg <- prepareSimpleMessage MsgTransactionResponse
           (BodyTransactionResponse message) ;;
  key <- gets (fun s => registered_key s topic) ;;
  relay_await (RelayPublish topic msg key) ;;;
  ret (env_id msg).

(** The four assignments shared by lines 164-167 and 221-224: the object
    behind [this.metadata] is sanitized in place, in this order:
    description, name, (the message's own) network, url. *)
Definition sanitize_in_place (network : JsString) : M JsString :=
  this_metadata <- gets metadata ;;
  m <- read_metadata this_metadata ;;
  update_metadata this_metadata
    (with_description (sanitizeString (md_description m))) ;;;
  m <- read_metadata this_metadata ;;
  update_metadata this_metadata (with_name (sanitizeString (md_name m))) ;;;
  let network := sanitizeString network in
  m <- read_metadata this_metadata ;;
  url <- sanitize_optional (md_url m) ;;
  update_metadata this_metadata (with_url (Some url)) ;;;
  ret network.

(** Lines 153-177. The call of line 174 is not awaited. *)
Definition pair (pairingData : PairingData) (accounts : list JsString)
    (network : JsString) : M ConnectionState :=
  state <- connect (Some (pd_topic pairingData)) None ;;
  network <- sanitize_in_place network ;;
  let accountIds := List.map (fun id => id) accounts in
  modify (fun s =>
    set_publicKeys
      (<[pd_topic pairingData := md_publicKey (pd_metadata pairingData)]>
         (publicKeys s)) s) ;;;
  this_metadata <- gets metadata ;;
  m <- read_metadata this_metadata ;;
  let msg := {| ap_metadata := m; ap_topic := pd_topic pairingData;
                ap_accountIds := accountIds; ap_network := network |} in
  payload <- prepareSimpleMessage MsgApprovePairing (BodyApprovePairing msg) ;;
  key <- gets (fun s => registered_key s (pd_topic pairingData)) ;;
  relay_call (RelayPublish (pd_topic pairingData) payload key) ;;;
  ret state.

(** Lines 179-193. *)
Definition reject (topic reason msg_id : JsString) : M unit :=
  let reject := {| rej_reason := sanitizeString reason;
                   rej_topic := topic; rej_msg_id := msg_id |} in
  msg <- prepareSimpleMessage MsgRejectPairing (BodyRejected reject) ;;
  key <- gets (fun s => registered_key s topic) ;;
  relay_await (RelayPublish topic msg key).

(** Lines 195-204. *)
Definition acknowledge (topic pubKey msg_id : JsString) : M unit :=
  let ack := {| ack_result := true; ack_topic := topic;
                ack_msg_id := msg_id |} in
  ackPayload <- prepareSimpleMessage MsgAcknowledge (BodyAcknowledge ack) ;;
  relay_await (RelayPublish topic ackPayload (Some pubKey)).

End HashConnect.

(** ** Pairing codec *)

Definition optional_member (k : JsString) (v : option JsString)
    : list (JsString * JSON) :=
  match v with
  | Some str => [(k, JString str)]
  | None => []
  end.

(** A metadata object as a JavaScript value; [JSON.stringify] leaves out
    a property that is [undefined]. The properties are listed in the
    order of section 3; a caller's object may hold them in another
    order, which changes the token but not the decoded record. *)
Definition metadata_to_json (m : Metadata) : JSON :=
  JObject ([(js "name", JString (md_name m));
            (js "description", JString (md_description m));
            (js "icon", JString (md_icon m))]
           ++ optional_member (js "url") (md_url m)
           ++ optional_member (js "publicKey") (md_publicKey m)).

(** The object literal of lines 214-219. *)
Definition pairing_to_json (d : PairingData) : JSON :=
  JObject [(js "metadata", metadata_to_json (pd_metadata d));
           (js "topic", JString (pd_topic d));
           (js "network", JString (pd_network d));
           (js "multiAccount", JBool (pd_multiAccount d))].

(** Lines 211-229. *)
Definition generatePairingString (state : ConnectionState)
    (network : JsString) (multiAccount : bool) : M JsString :=
  (network <- sanitize_in_place network ;;
   this_metadata <- gets metadata ;;
   m <- read_metadata this_metadata ;;
   let data := {| pd_metadata := m; pd_topic := cs_topic state;
                  pd_network := network; pd_multiAccount := multiAccount |} in
   let pairingString :=
     base64_encode (utf8_encode (JSON_stringify (pairing_to_json data))) in
   ret pairingString)%hc.

(** Lines 231-237. The value [JSON.parse] returns is handed out as it is;
    a [SyntaxError] of [JSON.parse] is not caught. *)
Definition decodePairingString (pairingString : JsString) : Outcome JSON :=
  let json_string := utf8_decode (base64_decode pairingString) in
  match JSON_parse json_string with
  | Some data => Returned data
  | None => Thrown SyntaxError
  end.

(** Reading a JavaScript value as the record its type annotation names. *)
Fixpoint obj_get (k : JsString) (m : list (JsString * JSON)) : option JSON :=
  match m with
  | [] => None
  | (k', v) :: m' => if js_eqb k k' then Some v else obj_get k m'
  end.

Definition get_string (k : JsString) (m : list (JsString * JSON))
    : option JsString :=
  match obj_get k m with
  | Some (JString str) => Some str
  | _ => None
  end.

(** An optional string property: absent, or a string. *)
Definition get_optional_string (k : JsString) (m : list (JsString * JSON))
    : option (option JsString) :=
  match obj_get k m with
  | None => Some None
  | Some (JString str) => Some (Some str)
  | Some _ => None
  end.

Definition as_Metadata (v : JSON) : option Metadata :=
  match v with
  | JObject m =>
      match get_string (js "name") m, get_string (js "description") m,
            get_string (js "icon") m, get_optional_string (js "url") m,
            get_optional_string (js "publicKey") m with
      | Some n, Some d, Some i, Some u, Some k =>
          Some {| md_name := n; md_description := d; md_icon := i;
                  md_url := u; md_publicKey := k |}
      | _, _, _, _, _ => None
      end
  | _ => None
  end.

(** The expected shape of a decoded pairing string (section 3). *)
Definition as_PairingData (v : JSON) : option PairingData :=
  match v with
  | JObject m =>
      match obj_get (js "metadata") m, get_string (js "topic") m,
            get_string (js "network") m, obj_get (js "multiAccount") m with
      | Some md, Some t, Some n, Some (JBool b) =>
          match as_Metadata md with
          | Some md' =>
              Some {| pd_metadata := md'; pd_topic := t; pd_network := n;
                      pd_multiAccount := b |}
          | None => None
          end
      | _, _, _, _ => None
      end
  | _ => None
  end.

(** ** Predicates used in the statements *)

(** What lines 164-167 and 221-224 leave in the metadata object. *)
Definition sanitized (m : Metadata) : Metadata :=
  {| md_name := sanitizeString (md_name m);
     md_description := sanitizeString (md_description m);
     md_icon := md_icon m;
     md_url := option_map sanitizeString (md_url m);
     md_publicKey := md_publicKey m |}.

(** Every string of the record is a JavaScript string. *)
Definition Metadata_wf (m : Metadata) : Prop :=
  js_wf (md_name m) /\ js_wf (md_description m) /\ js_wf (md_icon m) /\
  (forall u, md_url m = Some u -> js_wf u) /\
  (forall k, md_publicKey m = Some k -> js_wf k).

Definition PairingData_wf (p : PairingData) : Prop :=
  Metadata_wf (pd_metadata p) /\ js_wf (pd_topic p) /\ js_wf (pd_network p).


(** The text [sendTransaction] leaves in [transaction.byteArray]. *)
Definition encoded (t : Transaction) : Transaction :=
  with_byteArray (Text (base64_encode (Buffer_from (tx_byteArray t)))) t.

(** The topic [connect] settles on: a fresh one when it is given none
    (or the empty string, which is falsy). *)
Definition connected_topic (P : Platform) (s : State) (topic : JsString)
    : JsString :=
  match topic with
  | [] => createRandomTopicId P (drawn s)
  | _ :: _ => topic
  end.

(** The envelope [pair] prepares on a session whose metadata object
    holds [m]. *)
Definition approval (P : Platform) (s : State) (m : Metadata)
    (pairingData : PairingData) (accounts : list JsString)
    (network : JsString) : Envelope :=
  {| env_id := message_id P (prepared s);
     env_type := MsgApprovePairing;
     env_body := BodyApprovePairing
       {| ap_metadata := sanitized m;
          ap_topic := pd_topic pairingData;
          ap_accountIds := accounts;
          ap_network := sanitizeString network |} |}.

(** The token decodes to JSON text for a value of the expected shape. *)
Definition encodes_PairingData (token : JsString) : Prop :=
  exists v p,
    JSON_parse (utf8_decode (base64_decode token)) = Some v /\
    as_PairingData v = Some p.

(** A unit of the base64 alphabet ([A-Z], [a-z], [0-9], [+], [/]). *)
Definition is_base64_unit (c : N) : bool :=
  ((65 <=? c) && (c <=? 90) || (97 <=? c) && (c <=? 122) ||
   (48 <=? c) && (c <=? 57) || (c =? 43) || (c =? 47))%N.


(** A computation keeps the relation [R] between the state it starts in
    and the state it leaves, whether it returns or throws. *)
Definition keeps {A} (R : State -> State -> Prop) (m : M A) : Prop :=
  forall s, R s (snd (m s)).

(** The part of the instance that the send operations leave alone. *)
Definition same_session (s s' : State) : Prop :=
  metadata s' = metadata s /\ publicKeys s' = publicKeys s /\
  privateKey s' = privateKey s /\
  metadata_objects s' = metadata_objects s /\ drawn s' = drawn s.

(** The registry differs at most at [topic]. *)
Definition registry_but (topic : JsString) (s s' : State) : Prop :=
  forall t, t <> topic -> publicKeys s' !! t = publicKeys s !! t.

(** ** Sample collaborators and objects (used to instantiate the
    statements of Part II) *)

(** A page at [https://dapp.example] and a relay that accepts every call. *)
Definition sample_platform : Platform :=
  {| window := WindowObject (js "https://dapp.example");
     getPublicKey := fun priv => List.map (fun b => (255 - b)%N) priv;
     generatePrivateKey := fun n => [1; 2; 3; N.of_nat n]%N;
     createRandomTopicId := fun n => js "topic-" ++ number_to_string (N.of_nat n);
     message_id := fun n => js "msg-" ++ number_to_string (N.of_nat n);
     relay_answer := fun _ _ => None |}.

(** The same, with a relay that rejects every [publish]. *)
Definition offline_platform : Platform :=
  {| window := window sample_platform;
     getPublicKey := getPublicKey sample_platform;
     generatePrivateKey := generatePrivateKey sample_platform;
     createRandomTopicId := createRandomTopicId sample_platform;
     message_id := message_id sample_platform;
     relay_answer := fun _ call =>
       match call with
       | RelayPublish _ _ _ => Some (js "offline")
       | _ => None
       end |}.


Definition sample_metadata : Metadata :=
  {| md_name := js "My dApp";
     md_description := js "A sample app.";
     md_icon := js "https://dapp.example/icon.png";
     md_url := Some (js "dapp.example");
     md_publicKey := Some (js "cHVibGlj") |}.

(** A caller's metadata before [init]: no url, no key. *)
Definition fresh_metadata : Metadata :=
  {| md_name := js "Tom & Co";
     md_description := js "A sample app.";
     md_icon := js "https://dapp.example/icon.png";
     md_url := None;
     md_publicKey := None |}.

Definition sample_pairing : PairingData :=
  {| pd_metadata := sample_metadata;
     pd_topic := js "t1";
     pd_network := js "testnet";
     pd_multiAccount := false |}.


Definition sample_transaction : Transaction :=
  {| tx_topic := js "t1";
     tx_byteArray := RawBytes [1; 2; 3]%N;
     tx_other := [] |}.

(** A session after [init]: the instance holds the caller's metadata
    object (reference 0); the caller also holds a transaction (reference
    0 of the transactions); nothing is registered. *)
Definition sample_session : State :=
  {| metadata := Some 0;
     publicKeys := ∅;
     privateKey := Some (js "AQID");
     metadata_objects := {[ 0 := sample_metadata ]};
     transaction_objects := {[ 0 := sample_transaction ]};
     relay_log := [RelayInit; RelayAddDecryptionKey (js "AQID")];
     prepared := 0;
     drawn := 0 |}.

(** The same collaborators where no [window] is declared (outside a page). *)
Definition windowless_platform : Platform :=
  {| window := WindowUndeclared;
     getPublicKey := getPublicKey sample_platform;
     generatePrivateKey := generatePrivateKey sample_platform;
     createRandomTopicId := createRandomTopicId sample_platform;
     message_id := message_id sample_platform;
     relay_answer := relay_answer sample_platform |}.

(** The same, with a relay that fails to initialize. *)
Definition unreachable_platform : Platform :=
  {| window := window sample_platform;
     getPublicKey := getPublicKey sample_platform;
     generatePrivateKey := generatePrivateKey sample_platform;
     createRandomTopicId := createRandomTopicId sample_platform;
     message_id := message_id sample_platform;
     relay_answer := fun _ call =>
       match call with
       | RelayInit => Some (js "unreachable")
       | _ => None
       end |}.

(** A session whose metadata object has no url. *)
Definition urlless_session : State :=
  {| metadata := Some 0;
     publicKeys := ∅;
     privateKey := Some (js "AQID");
     metadata_objects := {[ 0 := fresh_metadata ]};
     transaction_objects := ∅;
     relay_log := [];
     prepared := 0;
     drawn := 0 |}.

(* ===================================================================== *)
(** * Part II: properties                                                 *)
(* ===================================================================== *)

(** ** Sanitizer *)

Lemma decimal_value_acc d acc :
  fold_left (fun a c => (a * 10 + (c - 48))%N) (uint_units d) (Npos acc)
  = Npos (Pos.of_uint_acc d acc).
Proof.
  revert acc. induction d; intros acc; simpl; try reflexivity;
    rewrite <- IHd; f_equal; lia.
Qed.

Lemma decimal_value_uint d : decimal_value (uint_units d) = N.of_uint d.
Proof.
  unfold decimal_value, N.of_uint.
  induction d; simpl; try reflexivity; try assumption;
    apply (decimal_value_acc d).
Qed.

Lemma number_to_string_value n : decimal_value (number_to_string n) = n.
Proof.
  unfold number_to_string. rewrite decimal_value_uint.
  apply DecimalN.Unsigned.of_to.
Qed.

Lemma number_to_string_nonempty n : number_to_string n <> [].
Proof.
  unfold number_to_string.
  assert (H : N.to_uint n <> Decimal.Nil).
  { destruct n as [|p]; simpl; [discriminate|].
    apply DecimalPos.Unsigned.to_uint_nonnil. }
  destruct (N.to_uint n); simpl; congruence.
Qed.

Lemma replacer_outside_class c :
  in_safe_class c = false -> replacer c = char_reference c.
Proof.
  unfold replacer, char_reference, in_safe_class. intros H.
  destruct (N.eqb_spec c 46) as [E|E]; [|reflexivity].
  subst c. discriminate H.
Qed.

Lemma sanitize_refines_spec s : sanitizeString s = sanitize_spec s.
Proof.
  unfold sanitizeString, replace_units, sanitize_spec, regex_matches.
  induction s as [|c s IH]; simpl; [reflexivity|].
  rewrite IH. destruct (in_safe_class c) eqn:E; simpl; [reflexivity|].
  now rewrite replacer_outside_class.
Qed.

Lemma sanitize_cons c s :
  sanitizeString (c :: s)
  = (if in_safe_class c then [c] else char_reference c) ++ sanitizeString s.
Proof. rewrite !sanitize_refines_spec. reflexivity. Qed.

Lemma sanitize_safe s : all_safe s -> sanitizeString s = s.
Proof.
  induction 1 as [|c s Hc _ IH]; [reflexivity|].
  rewrite sanitize_cons, Hc, IH. reflexivity.
Qed.

Lemma sanitize_length s : length s <= length (sanitizeString s).
Proof.
  induction s as [|c s IH]; [reflexivity|].
  rewrite sanitize_cons, length_app. destruct (in_safe_class c); simpl; [lia|].
  unfold char_reference. simpl. lia.
Qed.

Lemma char_reference_long c : 4 <= length (char_reference c).
Proof.
  unfold char_reference. rewrite !length_app. simpl.
  pose proof (number_to_string_nonempty c).
  destruct (number_to_string c); simpl; [congruence | lia].
Qed.

Lemma sanitize_grows s : ~ all_safe s -> length s < length (sanitizeString s).
Proof.
  induction s as [|c s IH]; intros Hn.
  - destruct Hn. constructor.
  - rewrite sanitize_cons, length_app.
    pose proof (sanitize_length s).
    destruct (in_safe_class c) eqn:E; simpl.
    + assert (~ all_safe s) by (intros Hs; apply Hn; constructor; assumption).
      specialize (IH H0). lia.
    + pose proof (char_reference_long c). lia.
Qed.

Lemma sanitize_keeps_unsafe s : ~ all_safe s -> ~ all_safe (sanitizeString s).
Proof.
  induction s as [|c s IH]; intros Hn.
  - destruct Hn. constructor.
  - rewrite sanitize_cons. destruct (in_safe_class c) eqn:E.
    + intros Hs. inversion Hs; subst. apply IH; [|assumption].
      intros Hs'. apply Hn. constructor; assumption.
    + unfold char_reference. simpl. intros Hs. inversion Hs; subst.
      discriminate.
Qed.

(** C2, as stated, fails: escaping ["&"] yields ["&#38;"], whose [&], [#]
    and [;] are escaped again by a second pass. *)
Lemma sanitize_not_idempotent :
  sanitizeString (sanitizeString (js "&")) = js "&#38;&#35;38&#59;" /\
  sanitizeString (js "&") = js "&#38;" /\
  ~ (forall s, sanitizeString (sanitizeString s) = sanitizeString s).
Proof.
  split; [reflexivity|]. split; [reflexivity|].
  intros H. specialize (H (js "&")). vm_compute in H. discriminate H.
Qed.

(** C2 (amended): a second pass of the sanitizer changes nothing exactly
    when the input contains only units of the safe class [\w. ]; on such
    input the sanitizer is the identity. *)
Theorem sanitize_idempotent_iff_safe (s : JsString) :
  sanitizeString (sanitizeString s) = sanitizeString s <-> all_safe s.
Proof.
  split.
  - intros H.
    destruct (decide (Forall (fun c => in_safe_class c = true) s)) as [Hs|Hn];
      [exact Hs|].
    exfalso. apply sanitize_keeps_unsafe in Hn. apply sanitize_grows in Hn.
    rewrite H in Hn. lia.
  - intros Hs. rewrite !(sanitize_safe s Hs). reflexivity.
Qed.

(** C8: the sanitizer replaces every unit outside the class
    [word character, '.', space] by its numeric character reference
    [&#<decimal code>;], keeps the units of the class (so ['.'] is passed
    through), and maps ["A&B.C"] to ["A&#38;B.C"]. *)
Theorem sanitize_escapes_outside_class :
  (forall s, sanitizeString s = sanitize_spec s) /\
  (forall c s, in_safe_class c = false ->
     sanitizeString (c :: s)
     = js "&#" ++ number_to_string c ++ js ";" ++ sanitizeString s) /\
  (forall c s, in_safe_class c = true ->
     sanitizeString (c :: s) = c :: sanitizeString s) /\
  (forall c, decimal_value (number_to_string c) = c) /\
  (forall s, sanitizeString (46%N :: s) = 46%N :: sanitizeString s) /\
  sanitizeString (js "A&B.C") = js "A&#38;B.C".
Proof.
  split; [exact sanitize_refines_spec|].
  split; [intros c s H; rewrite sanitize_cons, H; unfold char_reference;
          rewrite <- !app_assoc; reflexivity|].
  split; [intros c s H; rewrite sanitize_cons, H; reflexivity|].
  split; [exact number_to_string_value|].
  split; [intros s; rewrite sanitize_cons; reflexivity | reflexivity].
Qed.

(** ** Codec: base64 *)

Ltac dlia := zify; Z.to_euclidean_division_equations; lia.

Lemma list_ind3 {A} (Q : list A -> Prop) :
  Q [] -> (forall a, Q [a]) -> (forall a b, Q [a; b]) ->
  (forall a b c l, Q l -> Q (a :: b :: c :: l)) ->
  forall l, Q l.
Proof.
  intros H0 H1 H2 H3.
  fix IH 1. intros [|a [|b [|c l]]];
    [exact H0 | apply H1 | apply H2 | apply H3, IH].
Qed.

Lemma all_below_spec (f : N -> bool) (n : nat) (i : N) :
  all_below f n i = true ->
  forall j, (i <= j < i + N.of_nat n)%N -> f j = true.
Proof.
  revert i. induction n as [|n IH]; intros i H j Hj; [lia|].
  simpl in H. apply andb_prop in H as [Hi Hn].
  destruct (N.eq_dec j i) as [->|Hne]; [exact Hi|].
  apply (IH (N.succ i) Hn). lia.
Qed.

Lemma unbase64_char i : (i < 64)%N -> unbase64 (base64_char i) = Some i.
Proof.
  intros Hi.
  pose (f := fun i => match unbase64 (base64_char i) with
                      | Some j => (j =? i)%N
                      | None => false
                      end).
  assert (H : f i = true).
  { apply (all_below_spec f 64 0); [vm_compute; reflexivity | lia]. }
  unfold f in H. destruct (unbase64 (base64_char i)); [|discriminate].
  apply N.eqb_eq in H. congruence.
Qed.

Lemma base64_char_not_pad i : (i < 64)%N -> (base64_char i =? 61)%N = false.
Proof.
  intros Hi.
  pose (f := fun i => negb (base64_char i =? 61)%N).
  assert (H : f i = true).
  { apply (all_below_spec f 64 0); [vm_compute; reflexivity | lia]. }
  unfold f in H. now apply negb_true_iff in H.
Qed.

Lemma base64_sextets_char i s :
  (i < 64)%N ->
  base64_sextets (base64_char i :: s) = i :: base64_sextets s.
Proof.
  intros Hi. simpl.
  rewrite base64_char_not_pad, unbase64_char by assumption. reflexivity.
Qed.

Lemma base64_roundtrip bs :
  Forall is_byte bs -> base64_decode (base64_encode bs) = bs.
Proof.
  unfold base64_decode, is_byte.
  induction bs as [|a|a b|a b c l IH] using list_ind3; intros Hb.
  - reflexivity.
  - inversion_clear Hb. cbn [base64_encode].
    rewrite !base64_sextets_char by dlia. simpl. f_equal. dlia.
  - inversion_clear Hb as [|? ? ? Hb']. inversion_clear Hb'.
    cbn [base64_encode].
    rewrite !base64_sextets_char by dlia. simpl.
    f_equal; [|f_equal]; dlia.
  - inversion_clear Hb as [|? ? ? Hb']. inversion_clear Hb' as [|? ? ? Hb''].
    inversion_clear Hb''.
    cbn [base64_encode app].
    rewrite !base64_sextets_char by dlia.
    cbn [base64_bytes app]. rewrite IH by assumption.
    f_equal; [|f_equal; [|f_equal]]; dlia.
Qed.

(** ** Codec: UTF-8 *)

Ltac settle_tests :=
  repeat match goal with
  | |- context [N.leb ?a ?b] =>
      first [ rewrite (proj2 (N.leb_le a b)) by dlia
            | rewrite (proj2 (N.leb_gt a b)) by dlia ]
  | |- context [N.ltb ?a ?b] =>
      first [ rewrite (proj2 (N.ltb_lt a b)) by dlia
            | rewrite (proj2 (N.ltb_ge a b)) by dlia ]
  | |- context [N.eqb ?a ?b] =>
      first [ rewrite (proj2 (N.eqb_eq a b)) by dlia
            | rewrite (proj2 (N.eqb_neq a b)) by dlia ]
  end; cbn [andb orb negb].

Lemma decode_ascii b rest :
  (b <= 127)%N ->
  utf8_decode_from None (b :: rest) = b :: utf8_decode_from None rest.
Proof.
  intros Hb. cbn [utf8_decode_from]. unfold utf8_lead.
  settle_tests. reflexivity.
Qed.

Lemma decode_lead b st rest :
  utf8_lead b = LeadMulti st ->
  utf8_decode_from None (b :: rest) = utf8_decode_from (Some st) rest.
Proof. intros H. cbn [utf8_decode_from]. rewrite H. reflexivity. Qed.

Lemma decode_last cp lo hi b rest :
  (lo <= b <= hi)%N ->
  utf8_decode_from
    (Some {| u_code_point := cp; u_needed := 1; u_lower := lo; u_upper := hi |})
    (b :: rest)
  = utf16_of_code_point (cp * 64 + (b - 128)) ++ utf8_decode_from None rest.
Proof.
  intros Hb. cbn [utf8_decode_from u_lower u_upper u_needed u_code_point].
  settle_tests. reflexivity.
Qed.

Lemma decode_more cp n lo hi b rest :
  (lo <= b <= hi)%N ->
  utf8_decode_from
    (Some {| u_code_point := cp; u_needed := S (S n);
             u_lower := lo; u_upper := hi |})
    (b :: rest)
  = utf8_decode_from
      (Some {| u_code_point := cp * 64 + (b - 128); u_needed := S n;
               u_lower := 128; u_upper := 191 |}) rest.
Proof.
  intros Hb. cbn [utf8_decode_from u_lower u_upper u_needed u_code_point].
  settle_tests. reflexivity.
Qed.

Lemma lead2 b :
  (194 <= b <= 223)%N ->
  utf8_lead b = LeadMulti {| u_code_point := b - 192; u_needed := 1;
                             u_lower := 128; u_upper := 191 |}.
Proof. intros Hb. unfold utf8_lead. settle_tests. reflexivity. Qed.

Lemma lead3 b :
  (224 <= b <= 239)%N ->
  utf8_lead b = LeadMulti {| u_code_point := b - 224; u_needed := 2;
                             u_lower := if (b =? 224)%N then 160 else 128;
                             u_upper := if (b =? 237)%N then 159 else 191 |}%N.
Proof.
  intros Hb. unfold utf8_lead.
  replace (b <=? 127)%N with false by (symmetry; apply N.leb_gt; lia).
  replace (194 <=? b)%N with true by (symmetry; apply N.leb_le; lia).
  replace (b <=? 223)%N with false by (symmetry; apply N.leb_gt; lia).
  replace (224 <=? b)%N with true by (symmetry; apply N.leb_le; lia).
  replace (b <=? 239)%N with true by (symmetry; apply N.leb_le; lia).
  reflexivity.
Qed.

Lemma lead4 b :
  (240 <= b <= 244)%N ->
  utf8_lead b = LeadMulti {| u_code_point := b - 240; u_needed := 3;
                             u_lower := if (b =? 240)%N then 144 else 128;
                             u_upper := if (b =? 244)%N then 143 else 191 |}%N.
Proof.
  intros Hb. unfold utf8_lead.
  replace (b <=? 127)%N with false by (symmetry; apply N.leb_gt; lia).
  replace (194 <=? b)%N with true by (symmetry; apply N.leb_le; lia).
  replace (b <=? 223)%N with false by (symmetry; apply N.leb_gt; lia).
  replace (224 <=? b)%N with true by (symmetry; apply N.leb_le; lia).
  replace (b <=? 239)%N with false by (symmetry; apply N.leb_gt; lia).
  replace (240 <=? b)%N with true by (symmetry; apply N.leb_le; lia).
  replace (b <=? 244)%N with true by (symmetry; apply N.leb_le; lia).
  reflexivity.
Qed.

Lemma decode_code_point cp rest :
  scalar_value cp ->
  utf8_decode_from None (utf8_of_code_point cp ++ rest)
  = utf16_of_code_point cp ++ utf8_decode_from None rest.
Proof.
  unfold scalar_value, utf8_of_code_point. intros Hcp.
  destruct (N.ltb_spec cp 128) as [H1|H1].
  { cbn [app]. rewrite decode_ascii by lia.
    unfold utf16_of_code_point. settle_tests. reflexivity. }
  destruct (N.ltb_spec cp 2048) as [H2|H2].
  { cbn [app]. erewrite decode_lead by (apply lead2; dlia).
    rewrite decode_last by dlia. do 2 f_equal. dlia. }
  destruct (N.ltb_spec cp 65536) as [H3|H3].
  { cbn [app]. erewrite decode_lead by (apply lead3; dlia).
    rewrite decode_more.
    2:{ destruct (N.eqb_spec (224 + cp / 4096) 224);
        destruct (N.eqb_spec (224 + cp / 4096) 237); dlia. }
    rewrite decode_last by dlia. do 2 f_equal. dlia. }
  cbn [app]. erewrite decode_lead by (apply lead4; dlia).
  rewrite decode_more.
  2:{ destruct (N.eqb_spec (240 + cp / 262144) 240);
      destruct (N.eqb_spec (240 + cp / 262144) 244); dlia. }
  rewrite decode_more by dlia.
  rewrite decode_last by dlia. do 2 f_equal. dlia.
Qed.

Lemma utf8_encode_scalar c s :
  (c < 55296 \/ 57343 < c)%N ->
  utf8_encode (c :: s) = utf8_of_code_point c ++ utf8_encode s.
Proof.
  intros Hc. cbn [utf8_encode]. unfold is_high_surrogate, is_low_surrogate.
  destruct Hc; settle_tests; reflexivity.
Qed.

Lemma utf8_encode_pair h l s :
  (55296 <= h <= 56319)%N -> (56320 <= l <= 57343)%N ->
  utf8_encode (h :: l :: s)
  = utf8_of_code_point (code_point_of_pair h l) ++ utf8_encode s.
Proof.
  intros Hh Hl. cbn [utf8_encode]. unfold is_high_surrogate, is_low_surrogate.
  settle_tests. reflexivity.
Qed.

Lemma utf16_of_pair h l :
  (55296 <= h <= 56319)%N -> (56320 <= l <= 57343)%N ->
  utf16_of_code_point (code_point_of_pair h l) = [h; l].
Proof.
  intros Hh Hl. unfold utf16_of_code_point, code_point_of_pair.
  settle_tests. f_equal; [|f_equal]; dlia.
Qed.

Lemma utf8_roundtrip s :
  well_formed_utf16 s -> utf8_decode (utf8_encode s) = s.
Proof.
  unfold utf8_decode. induction 1 as [|c s Hc Hs _ IH|h l s Hh Hl _ IH].
  - reflexivity.
  - rewrite utf8_encode_scalar by assumption.
    rewrite decode_code_point by (unfold scalar_value; lia).
    rewrite IH. unfold utf16_of_code_point. settle_tests. reflexivity.
  - rewrite utf8_encode_pair by assumption.
    rewrite decode_code_point
      by (unfold scalar_value, code_point_of_pair; lia).
    rewrite IH, utf16_of_pair by assumption. reflexivity.
Qed.

Lemma utf8_of_code_point_bytes cp :
  (cp < 1114112)%N -> Forall is_byte (utf8_of_code_point cp).
Proof.
  intros Hcp. unfold utf8_of_code_point, is_byte.
  destruct (N.ltb_spec cp 128); [repeat constructor; lia|].
  destruct (N.ltb_spec cp 2048); [repeat constructor; dlia|].
  destruct (N.ltb_spec cp 65536); repeat constructor; dlia.
Qed.

Lemma utf8_encode_bytes s :
  well_formed_utf16 s -> Forall is_byte (utf8_encode s).
Proof.
  induction 1 as [|c s Hc Hs _ IH|h l s Hh Hl _ IH].
  - constructor.
  - rewrite utf8_encode_scalar by assumption.
    apply Forall_app. split; [apply utf8_of_code_point_bytes; lia | exact IH].
  - rewrite utf8_encode_pair by assumption.
    apply Forall_app. split; [|exact IH].
    apply utf8_of_code_point_bytes. unfold code_point_of_pair. lia.
Qed.

Lemma well_formed_utf16_app s t :
  well_formed_utf16 s -> well_formed_utf16 t -> well_formed_utf16 (s ++ t).
Proof.
  induction 1; intros Ht; cbn [app];
    [assumption | apply wf16_scalar | apply wf16_pair]; auto.
Qed.

Lemma well_formed_utf16_ascii s :
  Forall (fun c => (c < 128)%N) s -> well_formed_utf16 s.
Proof.
  induction 1; [apply wf16_nil | apply wf16_scalar]; auto; lia.
Qed.

(** The transport-safe token of a text decodes to the text. *)
Lemma token_roundtrip text :
  well_formed_utf16 text ->
  utf8_decode (base64_decode (base64_encode (utf8_encode text))) = text.
Proof.
  intros H. rewrite base64_roundtrip by now apply utf8_encode_bytes.
  now apply utf8_roundtrip.
Qed.

(** ** Codec: JSON string literals *)

Lemma hex_value_digit n : (n < 16)%N -> hex_value (hex_digit n) = Some n.
Proof.
  intros Hn.
  pose (f := fun n => match hex_value (hex_digit n) with
                      | Some m => (m =? n)%N
                      | None => false
                      end).
  assert (H : f n = true).
  { apply (all_below_spec f 16 0); [vm_compute; reflexivity | lia]. }
  unfold f in H. destruct (hex_value (hex_digit n)); [|discriminate].
  apply N.eqb_eq in H. congruence.
Qed.

Lemma hex4_digits c :
  (c < 65536)%N ->
  hex4 (hex_digit (c / 4096)) (hex_digit ((c / 256) mod 16))
       (hex_digit ((c / 16) mod 16)) (hex_digit (c mod 16)) = Some c.
Proof.
  intros Hc. unfold hex4. rewrite !hex_value_digit by dlia.
  f_equal. dlia.
Qed.

Lemma lex_unicode_escape c t :
  (c < 65536)%N ->
  lex_string_body (unicode_escape c ++ t) = cons_unit c (lex_string_body t).
Proof.
  intros Hc. unfold unicode_escape. cbn [app lex_string_body].
  change (92 =? 34)%N with false. change (92 =? 92)%N with true.
  change (117 =? 117)%N with true. cbv iota.
  rewrite hex4_digits by assumption. reflexivity.
Qed.

Lemma lex_plain c t :
  c <> 34%N -> c <> 92%N -> (32 <= c)%N ->
  lex_string_body (c :: t) = cons_unit c (lex_string_body t).
Proof.
  intros H1 H2 H3. cbn [lex_string_body]. settle_tests. reflexivity.
Qed.

Lemma lex_quote_unit c t :
  (c < 65536)%N ->
  lex_string_body (quote_unit c ++ t) = cons_unit c (lex_string_body t).
Proof.
  intros Hc. unfold quote_unit.
  destruct (N.eqb_spec c 8) as [->|]; [reflexivity|].
  destruct (N.eqb_spec c 9) as [->|]; [reflexivity|].
  destruct (N.eqb_spec c 10) as [->|]; [reflexivity|].
  destruct (N.eqb_spec c 12) as [->|]; [reflexivity|].
  destruct (N.eqb_spec c 13) as [->|]; [reflexivity|].
  destruct (N.eqb_spec c 34) as [->|]; [reflexivity|].
  destruct (N.eqb_spec c 92) as [->|]; [reflexivity|].
  destruct (N.ltb_spec c 32).
  - now apply lex_unicode_escape.
  - now apply lex_plain.
Qed.

Lemma lex_quote_body_bounded n : forall s rest,
  length s <= n -> js_wf s ->
  lex_string_body (quote_body s ++ 34%N :: rest) = Some (s, rest).
Proof.
  induction n as [|n IH]; intros s rest Hlen Hwf.
  { destruct s; [reflexivity | simpl in Hlen; lia]. }
  destruct s as [|c r]; [reflexivity|].
  inversion_clear Hwf as [|? ? Hc Hr]. simpl in Hlen.
  cbn [quote_body].
  destruct (is_high_surrogate c) eqn:Ehi.
  - unfold is_high_surrogate in Ehi. apply andb_prop in Ehi as [E1 E2].
    apply N.leb_le in E1, E2.
    destruct r as [|d r'].
    + rewrite lex_unicode_escape by assumption. reflexivity.
    + destruct (is_low_surrogate d) eqn:Elo.
      * unfold is_low_surrogate in Elo. apply andb_prop in Elo as [E3 E4].
        apply N.leb_le in E3, E4.
        inversion_clear Hr as [|? ? Hd Hr']. simpl in Hlen.
        cbn [app]. rewrite !lex_plain by lia.
        rewrite IH by (assumption || lia). reflexivity.
      * rewrite <- app_assoc, lex_unicode_escape by assumption.
        rewrite IH by (assumption || lia). reflexivity.
  - destruct (is_low_surrogate c).
    + rewrite <- app_assoc, lex_unicode_escape by assumption.
      rewrite IH by (assumption || lia). reflexivity.
    + rewrite <- app_assoc, lex_quote_unit by assumption.
      rewrite IH by (assumption || lia). reflexivity.
Qed.

Lemma lex_quote_body s rest :
  js_wf s ->
  lex_string_body (quote_body s ++ 34%N :: rest) = Some (s, rest).
Proof. now apply (lex_quote_body_bounded (length s)). Qed.

Lemma well_formed_unicode_escape c :
  (c < 65536)%N -> Forall (fun u => (u < 128)%N) (unicode_escape c).
Proof.
  intros Hc. unfold unicode_escape.
  assert (Hd : forall n, (n < 16)%N -> (hex_digit n < 128)%N).
  { intros n Hn. unfold hex_digit. destruct (N.ltb_spec n 10); lia. }
  repeat constructor; try lia; apply Hd; dlia.
Qed.

Lemma well_formed_quote_unit c :
  (c < 65536)%N -> (c < 55296 \/ 57343 < c)%N ->
  well_formed_utf16 (quote_unit c).
Proof.
  intros Hc Hs. unfold quote_unit.
  repeat match goal with
  | |- context [N.eqb ?a ?b] => destruct (N.eqb_spec a b);
      [apply well_formed_utf16_ascii; repeat constructor; lia|]
  end.
  destruct (N.ltb_spec c 32).
  - apply well_formed_utf16_ascii. now apply well_formed_unicode_escape.
  - apply wf16_scalar; [assumption..|apply wf16_nil].
Qed.

Lemma surrogate_tests c :
  is_high_surrogate c = false -> is_low_surrogate c = false ->
  (c < 55296 \/ 57343 < c)%N.
Proof.
  unfold is_high_surrogate, is_low_surrogate. intros H1 H2.
  apply andb_false_iff in H1, H2.
  rewrite !N.leb_gt in H1, H2. lia.
Qed.

Lemma well_formed_quote_body_bounded n : forall s,
  length s <= n -> js_wf s -> well_formed_utf16 (quote_body s).
Proof.
  induction n as [|n IH]; intros s Hlen Hwf.
  { destruct s; [apply wf16_nil | simpl in Hlen; lia]. }
  destruct s as [|c r]; [apply wf16_nil|].
  inversion_clear Hwf as [|? ? Hc Hr]. simpl in Hlen.
  cbn [quote_body].
  assert (Hesc : forall t, well_formed_utf16 t ->
                           well_formed_utf16 (unicode_escape c ++ t)).
  { intros t Ht. apply well_formed_utf16_app; [|exact Ht].
    apply well_formed_utf16_ascii. now apply well_formed_unicode_escape. }
  destruct (is_high_surrogate c) eqn:Ehi.
  - destruct r as [|d r'].
    + rewrite <- (app_nil_r (unicode_escape c)). apply Hesc, wf16_nil.
    + destruct (is_low_surrogate d) eqn:Elo.
      * unfold is_high_surrogate in Ehi. apply andb_prop in Ehi as [E1 E2].
        unfold is_low_surrogate in Elo. apply andb_prop in Elo as [E3 E4].
        apply N.leb_le in E1, E2, E3, E4.
        inversion_clear Hr as [|? ? Hd Hr']. simpl in Hlen.
        apply wf16_pair; [lia | lia | apply IH; [lia | assumption]].
      * apply Hesc, IH; [lia | assumption].
  - destruct (is_low_surrogate c) eqn:Elo.
    + apply Hesc, IH; [lia | assumption].
    + apply well_formed_utf16_app; [|apply IH; [lia | assumption]].
      apply well_formed_quote_unit; [assumption|].
      now apply surrogate_tests.
Qed.

Lemma well_formed_quote s : js_wf s -> well_formed_utf16 (quote s).
Proof.
  intros H. unfold quote.
  apply (well_formed_utf16_app [34%N]);
    [apply well_formed_utf16_ascii; repeat constructor; lia|].
  apply well_formed_utf16_app;
    [now apply (well_formed_quote_body_bounded (length s))|].
  apply well_formed_utf16_ascii; repeat constructor; lia.
Qed.

(** ** Codec: [JSON.parse] after [JSON.stringify] *)

Lemma JSON_nested_ind (Q : JSON -> Prop) :
  Q JNull -> (forall b, Q (JBool b)) -> (forall l, Q (JNumber l)) ->
  (forall s, Q (JString s)) ->
  (forall items, Forall Q items -> Q (JArray items)) ->
  (forall members, Forall (fun kv => Q (snd kv)) members ->
                   Q (JObject members)) ->
  forall v, Q v.
Proof.
  intros Hnull Hbool Hnum Hstr Harr Hobj.
  fix IH 1. intros [| b | l | s | items | members].
  - exact Hnull.
  - apply Hbool.
  - apply Hnum.
  - apply Hstr.
  - apply Harr. induction items as [|x items IHl]; constructor;
      [apply IH | exact IHl].
  - apply Hobj. induction members as [|[k x] members IHl]; constructor;
      [apply IH | exact IHl].
Qed.

Lemma js_eqb_eq a b : js_eqb a b = true <-> a = b.
Proof.
  revert b. induction a as [|x a IH]; intros [|y b]; simpl;
    try (split; (discriminate || reflexivity)).
  rewrite andb_true_iff, N.eqb_eq, IH. split.
  - intros [-> ->]. reflexivity.
  - intros H. inversion H. auto.
Qed.

Lemma obj_set_fresh k v acc :
  ~ In k (List.map fst acc) -> obj_set k v acc = acc ++ [(k, v)].
Proof.
  induction acc as [|[k' v'] acc IH]; intros Hk; [reflexivity|].
  simpl in *. destruct (js_eqb k k') eqn:E.
  - apply js_eqb_eq in E. subst. tauto.
  - rewrite IH by tauto. reflexivity.
Qed.

Lemma json_size_pos v : 1 <= json_size v.
Proof. destruct v; simpl; lia. Qed.

(** The first unit of a written value starts no white space and closes
    no array. *)
Lemma stringify_head v :
  json_ok v ->
  exists c t, JSON_stringify v = c :: t /\ is_ws c = false /\ c <> 93%N.
Proof.
  destruct 1 as [|[|]| | |]; simpl; eauto 6 using eq_refl; unfold quote;
    try (eexists _, _; split; [reflexivity|split; [reflexivity|discriminate]]).
Qed.

Lemma join_comma_head c t part parts tail :
  part = c :: t -> exists t', join_comma (part :: parts) ++ tail = c :: t'.
Proof. intros ->. destruct parts; cbn [join_comma app]; eauto. Qed.

Lemma parse_value_string fuel X :
  parse_value (S fuel) (34%N :: X)
  = match lex_string_body X with
    | Some (str, r') => Parsed (JString str) r'
    | None => SyntaxErr
    end.
Proof. reflexivity. Qed.

Lemma parse_value_object fuel X :
  parse_value (S fuel) (123%N :: 34%N :: X)
  = match parse_members fuel [] (34%N :: X) with
    | Parsed m r' => Parsed (JObject m) r'
    | SyntaxErr => SyntaxErr
    | OutOfFuel => OutOfFuel
    end.
Proof. reflexivity. Qed.

Lemma parse_value_array fuel c X :
  is_ws c = false -> c <> 93%N ->
  parse_value (S fuel) (91%N :: c :: X)
  = match parse_elements fuel [] (c :: X) with
    | Parsed l r' => Parsed (JArray l) r'
    | SyntaxErr => SyntaxErr
    | OutOfFuel => OutOfFuel
    end.
Proof.
  intros Hws Hc. cbn [parse_value skip_ws].
  change (is_ws 91) with false. cbv iota.
  change (91 =? 123)%N with false. change (91 =? 91)%N with true. cbv iota.
  cbn [skip_ws]. rewrite Hws. unfold expect.
  destruct (N.eqb_spec c 93); [contradiction | reflexivity].
Qed.

Lemma parse_members_step fuel acc X :
  parse_members (S fuel) acc (34%N :: X)
  = match lex_string_body X with
    | None => SyntaxErr
    | Some (k, r1) =>
        match expect 58 (skip_ws r1) with
        | None => SyntaxErr
        | Some r2 =>
            match parse_value fuel r2 with
            | Parsed v r3 =>
                match skip_ws r3 with
                | [] => SyntaxErr
                | c :: r4 =>
                    if (c =? 44)%N
                    then parse_members fuel (obj_set k v acc) r4
                    else if (c =? 125)%N
                    then Parsed (obj_set k v acc) r4
                    else SyntaxErr
                end
            | SyntaxErr => SyntaxErr
            | OutOfFuel => OutOfFuel
            end
        end
    end.
Proof. reflexivity. Qed.

Lemma parse_stringify_fuel fuel :
  (forall v rest, json_ok v -> json_size v <= fuel ->
     parse_value fuel (JSON_stringify v ++ rest) = Parsed v rest) /\
  (forall m ms acc rest,
     Forall (fun kv => js_wf (fst kv) /\ json_ok (snd kv)) (m :: ms) ->
     List.NoDup (List.map fst (acc ++ m :: ms)) ->
     members_size (m :: ms) <= fuel ->
     parse_members fuel acc
       (join_comma (List.map member_text (m :: ms)) ++ 125%N :: rest)
     = Parsed (acc ++ m :: ms) rest) /\
  (forall x xs acc rest,
     Forall json_ok (x :: xs) ->
     elements_size (x :: xs) <= fuel ->
     parse_elements fuel acc
       (join_comma (List.map JSON_stringify (x :: xs)) ++ 93%N :: rest)
     = Parsed (acc ++ x :: xs) rest).
Proof.
  induction fuel as [|fuel (IHv & IHm & IHe)].
  { split; [|split].
    - intros v ? ? H. pose proof (json_size_pos v). lia.
    - intros. simpl in *. lia.
    - intros. simpl in *. lia. }
  split; [|split].
  - intros v rest Hok Hsize.
    destruct Hok as [|[|]|s Hs|items Hitems|members Hmem Hdup].
    + reflexivity.
    + reflexivity.
    + reflexivity.
    + cbn [JSON_stringify]. unfold quote. cbn [app].
      rewrite parse_value_string, <- app_assoc. cbn [app].
      rewrite lex_quote_body by assumption. reflexivity.
    + cbn [JSON_stringify]. destruct items as [|x xs]; [reflexivity|].
      assert (Hx : json_ok x) by (inversion Hitems; assumption).
      destruct (stringify_head x Hx) as (c & t & Et & Hws & Hc).
      cbn [app]. rewrite <- app_assoc. cbn [app].
      assert (Eh : exists t', join_comma (List.map JSON_stringify (x :: xs))
                              ++ 93%N :: rest = c :: t').
      { cbn [List.map]. now apply join_comma_head with (t := t). }
      destruct Eh as (t' & Eh).
      pose proof (IHe x xs [] rest Hitems) as He. rewrite Eh in *.
      rewrite parse_value_array by assumption.
      rewrite He; [reflexivity|]. cbn [json_size] in Hsize.
      unfold elements_size. lia.
    + cbn [JSON_stringify]. destruct members as [|m ms]; [reflexivity|].
      cbn [app]. rewrite <- app_assoc. cbn [app].
      change (fun kv : list N * JSON =>
                quote (fst kv) ++ 58%N :: JSON_stringify (snd kv))
        with member_text.
      assert (Eh : exists t', join_comma (List.map member_text (m :: ms))
                              ++ 125%N :: rest = 34%N :: t').
      { cbn [List.map].
        apply join_comma_head
          with (t := quote_body (fst m) ++ [34%N] ++ 58%N
                       :: JSON_stringify (snd m)).
        unfold member_text, quote. cbn [app]. now rewrite <- app_assoc. }
      destruct Eh as (t' & Eh).
      pose proof (IHm m ms [] rest Hmem Hdup) as Hm. rewrite Eh in *.
      rewrite parse_value_object.
      rewrite Hm; [reflexivity|]. cbn [json_size] in Hsize.
      unfold members_size. lia.
  - intros [k v] ms acc rest Hok Hdup Hsize.
    inversion_clear Hok as [|? ? [Hk Hv] Hms]. cbn [fst snd] in Hk, Hv.
    cbn [members_size fold_right snd] in Hsize.
    fold (members_size ms) in Hsize.
    assert (Hfresh : ~ In k (List.map fst acc)).
    { rewrite List.map_app in Hdup. cbn [List.map fst] in Hdup.
      apply NoDup_remove_2 in Hdup. intros Hin. apply Hdup.
      apply in_or_app. now left. }
    assert (Eacc : forall tl, (acc ++ [(k, v)]) ++ tl = acc ++ (k, v) :: tl).
    { intros tl. rewrite <- app_assoc. reflexivity. }
    cbn [List.map join_comma].
    destruct ms as [|m' ms'].
    + cbn [List.map]. unfold member_text, quote. cbn [fst snd app].
      rewrite parse_members_step. rewrite <- !app_assoc. cbn [app].
      rewrite lex_quote_body by assumption.
      change (expect 58 (skip_ws (58%N :: ?r))) with (Some r).
      cbv iota.
      rewrite (IHv v (125%N :: rest) Hv) by lia.
      cbn. rewrite obj_set_fresh by assumption. reflexivity.
    + set (tail := join_comma (List.map member_text (m' :: ms'))).
      cbn [List.map]. fold tail.
      unfold member_text at 1, quote. cbn [fst snd app].
      rewrite parse_members_step. rewrite <- !app_assoc. cbn [app].
      rewrite lex_quote_body by assumption.
      change (expect 58 (skip_ws (58%N :: ?r))) with (Some r).
      cbv iota.
      rewrite (IHv v (44%N :: tail ++ 125%N :: rest) Hv) by lia.
      cbn [skip_ws]. change (is_ws 44) with false. cbv iota.
      change (44 =? 44)%N with true. cbv iota.
      rewrite obj_set_fresh by assumption.
      unfold tail. rewrite IHm; [apply f_equal2; [apply Eacc | reflexivity]
                                | assumption | | ].
      * rewrite Eacc. exact Hdup.
      * unfold members_size in *. cbn [fold_right] in *. lia.
  - intros x xs acc rest Hok Hsize.
    inversion_clear Hok as [|? ? Hx Hxs].
    cbn [elements_size fold_right] in Hsize.
    fold (elements_size xs) in Hsize.
    assert (Eacc : forall tl, (acc ++ [x]) ++ tl = acc ++ x :: tl).
    { intros tl. rewrite <- app_assoc. reflexivity. }
    cbn [parse_elements List.map join_comma].
    destruct xs as [|x' xs'].
    + cbn [List.map]. rewrite (IHv x (93%N :: rest) Hx) by lia.
      reflexivity.
    + set (tail := join_comma (List.map JSON_stringify (x' :: xs'))).
      cbn [List.map]. fold tail. rewrite <- app_assoc. cbn [app].
      rewrite (IHv x (44%N :: tail ++ 93%N :: rest) Hx) by lia.
      cbn [skip_ws]. change (is_ws 44) with false. cbv iota.
      change (44 =? 44)%N with true. cbv iota.
      unfold tail. rewrite IHe; [apply f_equal2; [apply Eacc | reflexivity]
                                | assumption | ].
      unfold elements_size in *. cbn [fold_right] in *. lia.
Qed.

Lemma join_comma_length parts :
  length (join_comma parts) + 1
  = fold_right (fun x n => S (length x + n)) 0 parts
    + match parts with [] => 1 | _ :: _ => 0 end.
Proof.
  induction parts as [|x [|y parts] IH]; [reflexivity | simpl; lia |].
  change (join_comma (x :: y :: parts))
    with (x ++ 44%N :: join_comma (y :: parts)).
  rewrite length_app. cbn [length fold_right] in *. lia.
Qed.

Lemma json_size_length v : json_ok v -> json_size v <= length (JSON_stringify v).
Proof.
  induction v as [|b|l|s|items IH|members IH] using JSON_nested_ind;
    intros Hok; inversion_clear Hok as [| | |? Hitems|? Hmem Hdup].
  - simpl. lia.
  - destruct b; simpl; lia.
  - simpl. lia.
  - cbn [JSON_stringify json_size length]. rewrite length_app.
    pose proof (join_comma_length (List.map JSON_stringify items)) as Hj.
    cbn [length].
    assert (Hs : fold_right (fun x n => S (json_size x + n)) 0 items
                 <= fold_right (fun x n => S (length x + n)) 0
                      (List.map JSON_stringify items)).
    { clear Hj. induction items as [|x items IHl]; [reflexivity|].
      inversion_clear IH. inversion_clear Hitems. cbn [List.map fold_right].
      specialize (IHl ltac:(assumption) ltac:(assumption)).
      assert (json_size x <= length (JSON_stringify x)) by auto. lia. }
    destruct items; cbn [List.map] in *; lia.
  - cbn [JSON_stringify json_size length]. rewrite length_app.
    change (fun kv : list N * JSON =>
              quote (fst kv) ++ 58%N :: JSON_stringify (snd kv))
      with member_text.
    pose proof (join_comma_length (List.map member_text members)) as Hj.
    cbn [length].
    assert (Hs : fold_right (fun kv n => S (json_size (snd kv) + n)) 0 members
                 <= fold_right (fun x n => S (length x + n)) 0
                      (List.map member_text members)).
    { clear Hj Hdup. induction members as [|[k x] members IHl]; [reflexivity|].
      inversion_clear IH. inversion_clear Hmem as [|? ? [_ Hx] Hmem'].
      cbn [List.map fold_right snd fst] in *.
      specialize (IHl ltac:(assumption) ltac:(assumption)).
      assert (json_size x <= length (JSON_stringify x)) by auto.
      unfold member_text at 1. cbn [fst snd]. rewrite length_app.
      cbn [length]. lia. }
    destruct members; cbn [List.map] in *; lia.
Qed.

Lemma well_formed_join_comma parts :
  Forall well_formed_utf16 parts -> well_formed_utf16 (join_comma parts).
Proof.
  induction 1 as [|x parts Hx Hparts IH]; [apply wf16_nil|].
  destruct parts as [|y parts]; [exact Hx|].
  change (join_comma (x :: y :: parts))
    with (x ++ [44%N] ++ join_comma (y :: parts)).
  apply well_formed_utf16_app; [exact Hx|].
  apply well_formed_utf16_app; [|exact IH].
  apply well_formed_utf16_ascii. repeat constructor; lia.
Qed.

Lemma well_formed_bracketed o c body :
  (o < 128)%N -> (c < 128)%N -> well_formed_utf16 body ->
  well_formed_utf16 (o :: body ++ [c]).
Proof.
  intros Ho Hc Hb. apply (well_formed_utf16_app [o]);
    [apply well_formed_utf16_ascii; repeat constructor; lia|].
  apply well_formed_utf16_app; [exact Hb|].
  apply well_formed_utf16_ascii; repeat constructor; lia.
Qed.

Lemma well_formed_stringify v :
  json_ok v -> well_formed_utf16 (JSON_stringify v).
Proof.
  induction v as [|b|l|s|items IH|members IH] using JSON_nested_ind;
    intros Hok; inversion_clear Hok as [| |? Hs|? Hitems|? Hmem Hdup].
  - apply well_formed_utf16_ascii. repeat constructor; lia.
  - destruct b; apply well_formed_utf16_ascii; repeat constructor; lia.
  - now apply well_formed_quote.
  - cbn [JSON_stringify]. apply well_formed_bracketed; [lia | lia |].
    apply well_formed_join_comma.
    induction items as [|x items IHl]; [constructor|].
    inversion_clear IH. inversion_clear Hitems.
    cbn [List.map]. constructor; auto.
  - cbn [JSON_stringify]. apply well_formed_bracketed; [lia | lia |].
    apply well_formed_join_comma. clear Hdup.
    induction members as [|[k x] members IHl]; [constructor|].
    inversion_clear IH. inversion_clear Hmem as [|? ? [Hk Hx] Hmem'].
    cbn [List.map fst snd] in *. constructor; [|auto].
    apply well_formed_utf16_app; [now apply well_formed_quote|].
    apply (well_formed_utf16_app [58%N]); [|auto].
    apply well_formed_utf16_ascii. repeat constructor; lia.
Qed.

(** [JSON.parse] inverts [JSON.stringify] on strings, booleans, [null],
    arrays and objects with distinct keys. *)
Lemma JSON_parse_stringify v :
  json_ok v -> JSON_parse (JSON_stringify v) = Some v.
Proof.
  intros Hok. unfold JSON_parse.
  pose proof (json_size_length v Hok) as Hlen.
  destruct (parse_stringify_fuel (S (2 * length (JSON_stringify v))))
    as [Hv _].
  specialize (Hv v [] Hok ltac:(lia)). rewrite app_nil_r in Hv.
  rewrite Hv. reflexivity.
Qed.

(** Decoding the token of a written value returns the value. *)
Lemma decode_token v :
  json_ok v ->
  decodePairingString (base64_encode (utf8_encode (JSON_stringify v)))
  = Returned v.
Proof.
  intros Hok. unfold decodePairingString.
  rewrite token_roundtrip by now apply well_formed_stringify.
  now rewrite JSON_parse_stringify.
Qed.

(** ** [JSON.parse] never runs out of fuel *)

Lemma skip_ws_length s : length (skip_ws s) <= length s.
Proof.
  induction s as [|c s IH]; simpl; [lia|].
  destruct (is_ws c); simpl; lia.
Qed.

Lemma expect_length c s r : expect c s = Some r -> length s = S (length r).
Proof.
  destruct s as [|x s]; simpl; [discriminate|].
  destruct (x =? c)%N; [|discriminate]. now intros [= ->].
Qed.

Lemma expect_all_length lit : forall s r,
  expect_all lit s = Some r -> length r <= length s.
Proof.
  induction lit as [|c lit IH]; intros s r; simpl.
  - intros [= ->]. lia.
  - destruct (expect c s) as [r'|] eqn:E; [|discriminate].
    intros H. apply IH in H. apply expect_length in E. lia.
Qed.

Lemma cons_unit_rest c o str r :
  cons_unit c o = Some (str, r) -> exists str', o = Some (str', r).
Proof.
  destruct o as [[str' r']|]; simpl; [|discriminate].
  intros [= <- <-]. eauto.
Qed.

Lemma lex_string_body_length_bounded n : forall s str r,
  length s <= n -> lex_string_body s = Some (str, r) -> length r < length s.
Proof.
  induction n as [|n IH]; intros s str r Hlen H.
  { destruct s; [discriminate | simpl in Hlen; lia]. }
  destruct s as [|c s]; [discriminate|]. simpl in Hlen.
  cbn [lex_string_body] in H.
  destruct (c =? 34)%N; [injection H as <- <-; simpl; lia|].
  destruct (c =? 92)%N.
  - destruct s as [|e s]; [discriminate|]. simpl in Hlen.
    destruct (e =? 117)%N.
    + destruct s as [|h1 [|h2 [|h3 [|h4 s]]]]; try discriminate.
      simpl in Hlen. destruct (hex4 h1 h2 h3 h4); [|discriminate].
      apply cons_unit_rest in H as [str' H].
      apply IH in H; [simpl; lia | lia].
    + destruct (simple_escape e); [|discriminate].
      apply cons_unit_rest in H as [str' H].
      apply IH in H; [simpl; lia | lia].
  - destruct (c <? 32)%N; [discriminate|].
    apply cons_unit_rest in H as [str' H].
    apply IH in H; [simpl; lia | lia].
Qed.

Lemma lex_string_body_length s str r :
  lex_string_body s = Some (str, r) -> length r < length s.
Proof. now apply (lex_string_body_length_bounded (length s)). Qed.

Lemma span_digits_length s : length (snd (span_digits s)) <= length s.
Proof.
  induction s as [|c s IH]; simpl; [lia|].
  destruct (is_digit c); [|simpl; lia].
  destruct (span_digits s); simpl in *. lia.
Qed.

Lemma lex_int_length s lit r : lex_int s = Some (lit, r) -> length r <= length s.
Proof.
  destruct s as [|c s]; simpl; [discriminate|].
  destruct (negb (is_digit c)); [discriminate|].
  destruct (c =? 48)%N; [intros [= <- <-]; lia|].
  pose proof (span_digits_length s). destruct (span_digits s).
  intros [= <- <-]. simpl in *. lia.
Qed.

Lemma lex_frac_length s lit r :
  lex_frac s = Some (lit, r) -> length r <= length s.
Proof.
  destruct s as [|c s]; simpl; [intros [= <- <-]; simpl; lia|].
  destruct (c =? 46)%N; [|intros [= <- <-]; simpl; lia].
  pose proof (span_digits_length s). destruct (span_digits s) as [[|d ds] r'];
    [discriminate|]. intros [= <- <-]. simpl in *. lia.
Qed.

Lemma lex_exp_length s lit r : lex_exp s = Some (lit, r) -> length r <= length s.
Proof.
  destruct s as [|c s]; simpl; [intros [= <- <-]; simpl; lia|].
  destruct ((c =? 101)%N || (c =? 69)%N); [|intros [= <- <-]; simpl; lia].
  assert (H : forall r1, length r1 <= length s ->
            match span_digits r1 with
            | ([], _) => None
            | (d :: ds, r2) => Some (c :: [] ++ d :: ds, r2)
            end = Some (lit, r) -> length r <= S (length s)).
  { intros r1 Hr1. pose proof (span_digits_length r1).
    destruct (span_digits r1) as [[|d ds] r2]; [discriminate|].
    intros [= <- <-]. simpl in *. lia. }
  destruct s as [|g s'].
  - pose proof (span_digits_length []).
    destruct (span_digits []) as [[|d ds] r2]; [discriminate|].
    intros [= <- <-]. simpl in *. lia.
  - destruct ((g =? 43)%N || (g =? 45)%N).
    + pose proof (span_digits_length s').
      destruct (span_digits s') as [[|d ds] r2]; [discriminate|].
      intros [= <- <-]. simpl in *. lia.
    + pose proof (span_digits_length (g :: s')).
      destruct (span_digits (g :: s')) as [[|d ds] r2]; [discriminate|].
      intros [= <- <-]. simpl in *. lia.
Qed.

Lemma lex_number_length s lit r :
  lex_number s = Some (lit, r) -> length r <= length s.
Proof.
  unfold lex_number.
  assert (Hs : length (snd (lex_sign s)) <= length s).
  { destruct s as [|c s]; simpl; [lia|]. destruct (c =? 45)%N; simpl; lia. }
  destruct (lex_sign s) as [sign s1]. simpl in Hs.
  destruct (lex_int s1) as [[i s2]|] eqn:E1; [|discriminate].
  destruct (lex_frac s2) as [[f s3]|] eqn:E2; [|discriminate].
  destruct (lex_exp s3) as [[e s4]|] eqn:E3; [|discriminate].
  intros [= <- <-].
  apply lex_int_length in E1. apply lex_frac_length in E2.
  apply lex_exp_length in E3. lia.
Qed.

Lemma literal_value_length lit v s w r :
  literal_value lit v s = Parsed w r -> length r <= length s.
Proof.
  unfold literal_value. destruct (expect_all lit s) eqn:E; [|discriminate].
  intros [= <- <-]. now apply expect_all_length in E.
Qed.

Lemma skip_ws_cons s c r : skip_ws s = c :: r -> length r < length s.
Proof. intros H. pose proof (skip_ws_length s). rewrite H in *. simpl in *. lia. Qed.

Lemma expect_skip_ws c s r :
  expect c (skip_ws s) = Some r -> length r < length s.
Proof.
  intros H. apply expect_length in H. pose proof (skip_ws_length s). lia.
Qed.

Lemma parse_rest_length fuel :
  (forall s v r, parse_value fuel s = Parsed v r -> length r <= length s) /\
  (forall acc s m r,
     parse_members fuel acc s = Parsed m r -> length r <= length s) /\
  (forall acc s l r,
     parse_elements fuel acc s = Parsed l r -> length r <= length s).
Proof.
  induction fuel as [|fuel (IHv & IHm & IHe)];
    [repeat split; intros; discriminate|].
  split; [|split].
  - intros s v r. cbn [parse_value].
    destruct (skip_ws s) as [|c t] eqn:Es; [discriminate|].
    apply skip_ws_cons in Es.
    destruct (c =? 123)%N.
    { destruct (expect 125 (skip_ws t)) as [r'|] eqn:E.
      - intros [= <- <-]. apply expect_skip_ws in E. lia.
      - destruct (parse_members fuel [] t) as [m r'| |] eqn:Em;
          try discriminate.
        intros [= <- <-]. apply IHm in Em. lia. }
    destruct (c =? 91)%N.
    { destruct (expect 93 (skip_ws t)) as [r'|] eqn:E.
      - intros [= <- <-]. apply expect_skip_ws in E. lia.
      - destruct (parse_elements fuel [] t) as [l r'| |] eqn:Ee;
          try discriminate.
        intros [= <- <-]. apply IHe in Ee. lia. }
    destruct (c =? 34)%N.
    { destruct (lex_string_body t) as [[str r']|] eqn:E; [|discriminate].
      intros [= <- <-]. apply lex_string_body_length in E. lia. }
    destruct (c =? 116)%N;
      [intros H; apply literal_value_length in H; simpl in *; lia|].
    destruct (c =? 102)%N;
      [intros H; apply literal_value_length in H; simpl in *; lia|].
    destruct (c =? 110)%N;
      [intros H; apply literal_value_length in H; simpl in *; lia|].
    destruct (lex_number (c :: t)) as [[lit r']|] eqn:E; [|discriminate].
    intros [= <- <-]. apply lex_number_length in E. simpl in *. lia.
  - intros acc s m r. cbn [parse_members].
    destruct (expect 34 (skip_ws s)) as [r0|] eqn:E0; [|discriminate].
    apply expect_skip_ws in E0.
    destruct (lex_string_body r0) as [[k r1]|] eqn:E1; [|discriminate].
    apply lex_string_body_length in E1.
    destruct (expect 58 (skip_ws r1)) as [r2|] eqn:E2; [|discriminate].
    apply expect_skip_ws in E2.
    destruct (parse_value fuel r2) as [v r3| |] eqn:E3; try discriminate.
    apply IHv in E3.
    destruct (skip_ws r3) as [|c r4] eqn:E4; [discriminate|].
    apply skip_ws_cons in E4.
    destruct (c =? 44)%N; [intros H; apply IHm in H; lia|].
    destruct (c =? 125)%N; [|discriminate]. intros [= <- <-]. lia.
  - intros acc s l r. cbn [parse_elements].
    destruct (parse_value fuel s) as [v r1| |] eqn:E1; try discriminate.
    apply IHv in E1.
    destruct (skip_ws r1) as [|c r2] eqn:E2; [discriminate|].
    apply skip_ws_cons in E2.
    destruct (c =? 44)%N; [intros H; apply IHe in H; lia|].
    destruct (c =? 93)%N; [|discriminate]. intros [= <- <-]. lia.
Qed.

Lemma literal_value_fuel lit v s : literal_value lit v s <> OutOfFuel.
Proof. unfold literal_value. destruct (expect_all lit s); discriminate. Qed.

Lemma parse_fuel_enough fuel :
  (forall s, 2 * length s < fuel -> parse_value fuel s <> OutOfFuel) /\
  (forall acc s, 2 * length s + 1 < fuel ->
     parse_members fuel acc s <> OutOfFuel) /\
  (forall acc s, 2 * length s + 1 < fuel ->
     parse_elements fuel acc s <> OutOfFuel).
Proof.
  induction fuel as [|fuel (IHv & IHm & IHe)];
    [repeat split; intros; lia|].
  split; [|split].
  - intros s Hs. cbn [parse_value].
    destruct (skip_ws s) as [|c t] eqn:Es; [discriminate|].
    apply skip_ws_cons in Es.
    destruct (c =? 123)%N.
    { destruct (expect 125 (skip_ws t)); [discriminate|].
      specialize (IHm [] t ltac:(lia)).
      destruct (parse_members fuel [] t); congruence. }
    destruct (c =? 91)%N.
    { destruct (expect 93 (skip_ws t)); [discriminate|].
      specialize (IHe [] t ltac:(lia)).
      destruct (parse_elements fuel [] t); congruence. }
    destruct (c =? 34)%N.
    { destruct (lex_string_body t) as [[? ?]|]; discriminate. }
    destruct (c =? 116)%N; [apply literal_value_fuel|].
    destruct (c =? 102)%N; [apply literal_value_fuel|].
    destruct (c =? 110)%N; [apply literal_value_fuel|].
    destruct (lex_number (c :: t)) as [[? ?]|]; discriminate.
  - intros acc s Hs. cbn [parse_members].
    destruct (expect 34 (skip_ws s)) as [r0|] eqn:E0; [|discriminate].
    apply expect_skip_ws in E0.
    destruct (lex_string_body r0) as [[k r1]|] eqn:E1; [|discriminate].
    apply lex_string_body_length in E1.
    destruct (expect 58 (skip_ws r1)) as [r2|] eqn:E2; [|discriminate].
    apply expect_skip_ws in E2.
    specialize (IHv r2 ltac:(lia)).
    destruct (parse_value fuel r2) as [v r3| |] eqn:E3;
      [|discriminate|congruence].
    apply (proj1 (parse_rest_length fuel)) in E3.
    destruct (skip_ws r3) as [|c r4] eqn:E4; [discriminate|].
    apply skip_ws_cons in E4.
    destruct (c =? 44)%N; [apply IHm; lia|].
    destruct (c =? 125)%N; discriminate.
  - intros acc s Hs. cbn [parse_elements].
    specialize (IHv s ltac:(lia)).
    destruct (parse_value fuel s) as [v r1| |] eqn:E1;
      [|discriminate|congruence].
    apply (proj1 (parse_rest_length fuel)) in E1.
    destruct (skip_ws r1) as [|c r2] eqn:E2; [discriminate|].
    apply skip_ws_cons in E2.
    destruct (c =? 44)%N; [apply IHe; lia|].
    destruct (c =? 93)%N; discriminate.
Qed.

(** The fuel [JSON_parse] supplies is never used up: where it yields
    [None], the text is not JSON. *)
Lemma parse_value_fuel text :
  parse_value (S (2 * length text)) text <> OutOfFuel.
Proof. apply (proj1 (parse_fuel_enough _)). lia. Qed.

(** ** Pairing codec *)


Lemma bind_returned {A B} (m : M A) (k : A -> M B) s a s' :
  m s = (Returned a, s') -> bind m k s = k a s'.
Proof. unfold bind. now intros ->. Qed.

Lemma bind_thrown {A B} (m : M A) (k : A -> M B) s e s' :
  m s = (Thrown e, s') -> bind m k s = (Thrown e, s').
Proof. unfold bind. now intros ->. Qed.

Lemma read_metadata_run s l m :
  metadata_objects s !! l = Some m ->
  read_metadata (Some l) s = (Returned m, s).
Proof. unfold read_metadata. now intros ->. Qed.

Lemma update_metadata_run s l m f :
  metadata_objects s !! l = Some m ->
  update_metadata (Some l) f s
  = (Returned tt, set_metadata_objects (<[l := f m]> (metadata_objects s)) s).
Proof.
  intros H. unfold update_metadata.
  rewrite (bind_returned _ _ _ _ _ (read_metadata_run _ _ _ H)).
  reflexivity.
Qed.

Lemma lookup_updated s l (m : Metadata) :
  metadata_objects
    (set_metadata_objects (<[l := m]> (metadata_objects s)) s) !! l = Some m.
Proof. cbn. apply lookup_insert_eq. Qed.

Lemma update_updated s l (m m' : Metadata) :
  set_metadata_objects
    (<[l := m']>
       (metadata_objects
          (set_metadata_objects (<[l := m]> (metadata_objects s)) s)))
    (set_metadata_objects (<[l := m]> (metadata_objects s)) s)
  = set_metadata_objects (<[l := m']> (metadata_objects s)) s.
Proof. unfold set_metadata_objects. cbn. now rewrite insert_insert_eq. Qed.

(** One step of a computation: the first action of a [bind] returns. *)
Ltac mstep lem :=
  erewrite bind_returned by
    first [ apply lem; first [eassumption | apply lookup_updated]
          | reflexivity ];
  cbv beta.

Lemma sanitize_in_place_url s l m u network :
  metadata s = Some l -> metadata_objects s !! l = Some m ->
  md_url m = Some u ->
  sanitize_in_place network s
  = (Returned (sanitizeString network),
     set_metadata_objects (<[l := sanitized m]> (metadata_objects s)) s).
Proof.
  intros Hl Hm Hu. unfold sanitize_in_place.
  mstep I. rewrite Hl.
  mstep read_metadata_run. mstep update_metadata_run.
  mstep read_metadata_run. mstep update_metadata_run.
  rewrite update_updated.
  mstep read_metadata_run. cbn [md_url with_name with_description].
  rewrite Hu. cbn [sanitize_optional].
  mstep I. mstep update_metadata_run. rewrite update_updated.
  unfold ret, sanitized. rewrite Hu. reflexivity.
Qed.

Lemma sanitize_in_place_no_url s l m network :
  metadata s = Some l -> metadata_objects s !! l = Some m ->
  md_url m = None ->
  sanitize_in_place network s
  = (Thrown TypeError,
     set_metadata_objects
       (<[l := with_name (sanitizeString (md_name m))
                 (with_description (sanitizeString (md_description m)) m)]>
          (metadata_objects s)) s).
Proof.
  intros Hl Hm Hu. unfold sanitize_in_place.
  mstep I. rewrite Hl.
  mstep read_metadata_run. mstep update_metadata_run.
  mstep read_metadata_run. mstep update_metadata_run.
  rewrite update_updated.
  mstep read_metadata_run. cbn [md_url with_name with_description].
  rewrite Hu. cbn [sanitize_optional].
  erewrite bind_thrown by reflexivity. reflexivity.
Qed.

Lemma all_safe_wf s : all_safe s -> js_wf s.
Proof.
  intros H. eapply Forall_impl; [exact H|]. clear H. intros c Hc. cbv beta.
  unfold in_safe_class, is_word_char in Hc.
  destruct (N.ltb_spec c 128); [lia|]. exfalso.
  repeat match type of Hc with
  | context [N.leb ?a ?b] => destruct (N.leb_spec a b); try lia
  | context [N.eqb ?a ?b] => destruct (N.eqb_spec a b); try lia
  end; discriminate Hc.
Qed.

Lemma pairing_keys_distinct m :
  List.NoDup
    (List.map fst
       ([(js "name", JString (md_name m));
         (js "description", JString (md_description m));
         (js "icon", JString (md_icon m))]
        ++ optional_member (js "url") (md_url m)
        ++ optional_member (js "publicKey") (md_publicKey m))).
Proof.
  destruct (md_url m), (md_publicKey m); cbn [optional_member app List.map fst];
    repeat constructor; cbv; intuition discriminate.
Qed.

Lemma ascii_key_wf k : Forall (fun c => (c < 128)%N) k -> js_wf k.
Proof. intros H. eapply Forall_impl; [exact H|]. cbv beta. intros; lia. Qed.

Ltac key_wf := apply ascii_key_wf; cbv; repeat constructor.

Lemma optional_member_ok k v :
  Forall (fun c => (c < 128)%N) k -> (forall str, v = Some str -> js_wf str) ->
  Forall (fun kv : list N * JSON => js_wf (fst kv) /\ json_ok (snd kv))
    (optional_member k v).
Proof.
  intros Hk Hv. destruct v as [str|]; [|constructor].
  apply List.Forall_cons; [|constructor].
  split; [now apply ascii_key_wf | apply ok_string; now apply Hv].
Qed.

Lemma metadata_json_ok m : Metadata_wf m -> json_ok (metadata_to_json m).
Proof.
  intros (Hn & Hd & Hi & Hu & Hk). unfold metadata_to_json.
  apply ok_object; [|apply pairing_keys_distinct].
  cbn [app].
  apply List.Forall_cons; [split; [key_wf | now apply ok_string]|].
  apply List.Forall_cons; [split; [key_wf | now apply ok_string]|].
  apply List.Forall_cons; [split; [key_wf | now apply ok_string]|].
  apply Forall_app. split; apply optional_member_ok;
    try assumption; cbv; repeat constructor.
Qed.

Lemma pairing_json_ok p : PairingData_wf p -> json_ok (pairing_to_json p).
Proof.
  intros (Hm & Ht & Hn). unfold pairing_to_json.
  apply ok_object.
  - apply List.Forall_cons; [split; [key_wf | now apply metadata_json_ok]|].
    apply List.Forall_cons; [split; [key_wf | now apply ok_string]|].
    apply List.Forall_cons; [split; [key_wf | now apply ok_string]|].
    apply List.Forall_cons; [split; [key_wf | apply ok_bool]|].
    constructor.
  - cbn [List.map fst]. repeat constructor; cbv; intuition discriminate.
Qed.

(** Reading the written object back as a record gives the record. *)
Lemma as_PairingData_to_json p : as_PairingData (pairing_to_json p) = Some p.
Proof.
  destruct p as [[n d i [u|] [k|]] t nw b]; reflexivity.
Qed.



(** Without a url in the local metadata, line 224 calls [replace] on
    [undefined]: no token is produced. *)
Lemma generatePairingString_without_url state network multiAccount s l m :
  metadata s = Some l -> metadata_objects s !! l = Some m ->
  md_url m = None ->
  fst (generatePairingString state network multiAccount s) = Thrown TypeError.
Proof.
  intros Hl Hm Hu. unfold generatePairingString.
  erewrite bind_thrown by (eapply sanitize_in_place_no_url; eassumption).
  reflexivity.
Qed.

Lemma js_wf_check s :
  forallb (fun c => (c <? 65536)%N) s = true -> js_wf s.
Proof.
  intros H. apply List.Forall_forall. intros c Hc.
  apply (proj1 (forallb_forall _ _) H) in Hc. now apply N.ltb_lt.
Qed.






(** C3, as stated, fails: ["e30="] is the base64 text of [{}], which is
    not a [PairingData] record, and it is decoded without any failure. *)
Lemma decode_accepts_other_shapes :
  ~ encodes_PairingData (js "e30=") /\
  decodePairingString (js "e30=") = Returned (JObject []) /\
  decodePairingString (js "e30=") <> Thrown MalformedPairingString.
Proof.
  split; [|split; [reflexivity | discriminate]].
  intros (v & p & Hv & Hp). vm_compute in Hv. injection Hv as <-.
  discriminate Hp.
Qed.

(** C3 (amended): for every input string, [decodePairingString] returns
    what [JSON.parse] yields for the text obtained by the lenient base64
    and UTF-8 decoding, whatever its shape, and fails exactly when that
    text is not JSON, with the [SyntaxError] of [JSON.parse], which
    reaches the caller. *)
Theorem decode_reports_syntax_error_only (token : JsString) :
  match decodePairingString token with
  | Returned v => JSON_parse (utf8_decode (base64_decode token)) = Some v
  | Thrown e =>
      e = SyntaxError /\
      JSON_parse (utf8_decode (base64_decode token)) = None /\
      parse_value (S (2 * length (utf8_decode (base64_decode token))))
        (utf8_decode (base64_decode token)) <> OutOfFuel
  end.
Proof.
  unfold decodePairingString.
  destruct (JSON_parse (utf8_decode (base64_decode token))) eqn:E;
    [reflexivity|].
  split; [reflexivity | split; [reflexivity | apply parse_value_fuel]].
Qed.

(** ** Session operations *)

Section Operations.

Context (P : Platform).

Lemma relay_await_resolves c s :
  relay_answer P (relay_log s) c = None ->
  relay_await P c s = (Returned tt, set_relay_log (relay_log s ++ [c]) s).
Proof. unfold relay_await. now intros ->. Qed.

Lemma relay_await_rejects c s reason :
  relay_answer P (relay_log s) c = Some reason ->
  relay_await P c s
  = (Thrown (TransportFailure reason), set_relay_log (relay_log s ++ [c]) s).
Proof. unfold relay_await. now intros ->. Qed.

Lemma read_transaction_run s r t :
  transaction_objects s !! r = Some t ->
  read_transaction r s = (Returned t, s).
Proof. unfold read_transaction. now intros ->. Qed.

Lemma lookup_transaction_updated s r (t : Transaction) :
  transaction_objects
    (set_transaction_objects (<[r := t]> (transaction_objects s)) s) !! r
  = Some t.
Proof. cbn. apply lookup_insert_eq. Qed.

(** What [sendTransaction] does, whatever the registry holds: the
    caller's record is encoded in place, one envelope is prepared around
    it and published with [this.publicKeys[topic]], and the outcome is
    the outcome of that publish. *)
Lemma sendTransaction_run topic tx t s :
  transaction_objects s !! tx = Some t ->
  let msg := {| env_id := message_id P (prepared s);
                env_type := MsgTransaction;
                env_body := BodyTransaction (encoded t) |} in
  let call := RelayPublish topic msg (registered_key s topic) in
  let s' :=
    set_relay_log (relay_log s ++ [call])
      (set_prepared (S (prepared s))
         (set_transaction_objects
            (<[tx := encoded t]> (transaction_objects s)) s)) in
  sendTransaction P topic tx s
  = (match relay_answer P (relay_log s) call with
     | None => Returned (env_id msg)
     | Some reason => Thrown (TransportFailure reason)
     end, s').
Proof.
  intros Ht msg call s'. unfold sendTransaction.
  erewrite bind_returned by (apply read_transaction_run; eassumption).
  mstep I.
  erewrite bind_returned
    by (apply read_transaction_run, lookup_transaction_updated).
  mstep I. mstep I.
  fold (encoded t). cbn [registered_key publicKeys set_prepared
    set_transaction_objects]. fold (registered_key s topic). fold msg call.
  destruct (relay_answer P (relay_log s) call) as [reason|] eqn:E.
  - erewrite bind_thrown by (apply relay_await_rejects; exact E).
    reflexivity.
  - erewrite bind_returned by (apply relay_await_resolves; exact E).
    reflexivity.
Qed.

Lemma connect_run topic s :
  let t := connected_topic P s topic in
  let s1 := match topic with
            | [] => set_drawn (S (drawn s)) s
            | _ :: _ => s
            end in
  connect P (Some topic) None s
  = (match relay_answer P (relay_log s) (RelaySubscribe t) with
     | None => Returned {| cs_topic := t; cs_expires := 0 |}
     | Some reason => Thrown (TransportFailure reason)
     end, set_relay_log (relay_log s ++ [RelaySubscribe t]) s1).
Proof.
  intros t s1. unfold connect.
  assert (E : (if falsy (Some topic)
               then fun s0 => (Returned (createRandomTopicId P (drawn s0)),
                               set_drawn (S (drawn s0)) s0)
               else ret (default [] (Some topic))) s = (Returned t, s1)).
  { subst t s1. destruct topic; reflexivity. }
  rewrite (bind_returned _ _ _ _ _ E). mstep I. cbn [cs_topic].
  assert (Hlog : relay_log s1 = relay_log s)
    by (subst s1; destruct topic; reflexivity).
  destruct (relay_answer P (relay_log s) (RelaySubscribe t)) as [r|] eqn:Ea.
  - erewrite bind_thrown
      by (apply relay_await_rejects; rewrite Hlog; exact Ea).
    now rewrite Hlog.
  - erewrite bind_returned
      by (apply relay_await_resolves; rewrite Hlog; exact Ea).
    unfold ret. now rewrite Hlog.
Qed.

(** What [pair] does when the subscribe of [connect] resolves, on a
    session whose metadata object has a url. *)
Lemma pair_run pairingData accounts network s l m u :
  metadata s = Some l -> metadata_objects s !! l = Some m ->
  md_url m = Some u ->
  let t := connected_topic P s (pd_topic pairingData) in
  relay_answer P (relay_log s) (RelaySubscribe t) = None ->
  exists s',
    pair P pairingData accounts network s
    = (Returned {| cs_topic := t; cs_expires := 0 |}, s') /\
    publicKeys s'
    = <[pd_topic pairingData := md_publicKey (pd_metadata pairingData)]>
        (publicKeys s) /\
    metadata_objects s' = <[l := sanitized m]> (metadata_objects s) /\
    relay_log s'
    = relay_log s
      ++ [RelaySubscribe t;
          RelayPublish (pd_topic pairingData)
            (approval P s m pairingData accounts network)
            (md_publicKey (pd_metadata pairingData))].
Proof.
  intros Hl Hm Hu t Hsub. unfold pair.
  pose proof (connect_run (pd_topic pairingData) s) as Hc.
  cbv zeta in Hc. fold t in Hc. rewrite Hsub in Hc.
  rewrite (bind_returned _ _ _ _ _ Hc). clear Hc.
  set (s1 := match pd_topic pairingData with
             | [] => set_drawn (S (drawn s)) s
             | _ :: _ => s
             end).
  assert (H1 : metadata s1 = metadata s /\
               metadata_objects s1 = metadata_objects s /\
               publicKeys s1 = publicKeys s /\ prepared s1 = prepared s /\
               relay_log s1 = relay_log s)
    by (subst s1; destruct (pd_topic pairingData); repeat split).
  destruct H1 as (E1 & E2 & E3 & E4 & E5).
  erewrite bind_returned
    by (eapply sanitize_in_place_url;
        [cbn; rewrite E1; exact Hl | cbn; rewrite E2; exact Hm | exact Hu]).
  mstep I. mstep I. cbn [metadata set_publicKeys set_metadata_objects
    set_relay_log]. rewrite E1, Hl.
  erewrite bind_returned
    by (apply read_metadata_run; cbn; apply lookup_insert_eq).
  mstep I. mstep I.
  unfold registered_key at 1. cbn [publicKeys set_prepared set_publicKeys].
  rewrite lookup_insert_eq.
  unfold relay_call, modify, ret.
  erewrite bind_returned by reflexivity.
  eexists. split; [reflexivity|].
  cbn. rewrite E2, E3, E4, <- app_assoc, List.map_id.
  repeat split.
Qed.


End Operations.


Lemma sample_metadata_held :
  metadata_objects sample_session !! 0 = Some sample_metadata.
Proof. reflexivity. Qed.


Section Claims.

Context (P : Platform).





(** C7: [acknowledge(topic, pubKey, msg_id)] publishes, to [topic], an
    [Acknowledge] envelope with body [{result: true, topic, msg_id}]
    addressed with the [pubKey] argument; the registry is neither read
    nor changed, so this holds whatever is, or is not, registered for
    the topic. *)
Theorem acknowledge_uses_supplied_key (topic pubKey msg_id : JsString)
    (s : State) :
  relay_log (snd (acknowledge P topic pubKey msg_id s))
  = relay_log s
    ++ [RelayPublish topic
          {| env_id := message_id P (prepared s);
             env_type := MsgAcknowledge;
             env_body := BodyAcknowledge
               {| ack_result := true; ack_topic := topic;
                  ack_msg_id := msg_id |} |}
          (Some pubKey)] /\
  publicKeys (snd (acknowledge P topic pubKey msg_id s)) = publicKeys s.
Proof.
  unfold acknowledge. mstep I. unfold relay_await.
  cbn [relay_log set_prepared].
  destruct (relay_answer P (relay_log s) _); split; reflexivity.
Qed.

(** C10: [init(metadata, privKey?)] changes the caller's metadata object
    beyond stamping [publicKey]: whenever a [window] global is present,
    [metadata.url] is overwritten with [window.location.origin], whatever
    url the caller supplied (and whether or not the relay then
    initializes). *)
Theorem init_overwrites_url (md : nat) (privKey : option JsString)
    (m : Metadata) (origin : JsString) (s : State) :
  window P = WindowObject origin ->
  metadata_objects s !! md = Some m ->
  let key := if falsy privKey
             then base64_encode (generatePrivateKey P (drawn s))
             else default [] privKey in
  metadata_objects (snd (init P md privKey s)) !! md
  = Some {| md_name := md_name m;
            md_description := md_description m;
            md_icon := md_icon m;
            md_url := Some origin;
            md_publicKey :=
              Some (base64_encode (getPublicKey P (base64_decode key))) |} /\
  metadata (snd (init P md privKey s)) = Some md.
Proof.
  intros Hw Hm key. unfold init. mstep I.
  set (s0 := set_metadata (Some md) s).
  assert (Hkey : exists s1,
            (if falsy privKey then generateEncryptionKeys P
             else ret (default [] privKey)) s0 = (Returned key, s1) /\
            metadata s1 = Some md /\
            metadata_objects s1 = metadata_objects s).
  { subst key. destruct (falsy privKey); eexists; repeat split. }
  destruct Hkey as (s1 & Ek & Hmd & Hobj).
  rewrite (bind_returned _ _ _ _ _ Ek). mstep I.
  erewrite bind_returned
    by (apply update_metadata_run; cbn; rewrite Hobj; exact Hm).
  rewrite Hw.
  set (stamped := with_publicKey
         (Some (base64_encode (getPublicKey P (base64_decode key)))) m).
  set (s2 := set_metadata_objects _ _).
  assert (Hwin :
    (this_metadata <- gets metadata ;;
     update_metadata this_metadata (with_url (Some origin)))%hc s2
    = (Returned tt,
       set_metadata_objects
         (<[md := with_url (Some origin) stamped]> (metadata_objects s2)) s2)).
  { erewrite bind_returned by reflexivity.
    replace (metadata s2) with (Some md) by (symmetry; exact Hmd).
    apply update_metadata_run. subst s2. cbn. apply lookup_insert_eq. }
  rewrite (bind_returned _ _ _ _ _ Hwin).
  set (s3 := set_metadata_objects _ s2).
  assert (H3 : metadata_objects s3 !! md = Some (with_url (Some origin) stamped)
               /\ metadata s3 = Some md).
  { subst s3. split; [cbn; apply lookup_insert_eq | exact Hmd]. }
  unfold relay_await, relay_call, modify, ret, bind.
  destruct (relay_answer P (relay_log s3) RelayInit); exact H3.
Qed.


(** C4 at the input where the code departs from it: the publish of
    [pair] rejects, and [pair] still resolves with the connection state;
    the rejection reaches no caller. *)
Theorem pair_ignores_publish_rejection (pairingData : PairingData)
    (accounts : list JsString) (network : JsString) (s : State) (l : nat)
    (m : Metadata) (u reason : JsString) :
  metadata s = Some l -> metadata_objects s !! l = Some m ->
  md_url m = Some u ->
  let t := connected_topic P s (pd_topic pairingData) in
  let call := RelayPublish (pd_topic pairingData)
                (approval P s m pairingData accounts network)
                (md_publicKey (pd_metadata pairingData)) in
  relay_answer P (relay_log s) (RelaySubscribe t) = None ->
  relay_answer P (relay_log s ++ [RelaySubscribe t]) call = Some reason ->
  fst (pair P pairingData accounts network s)
  = Returned {| cs_topic := t; cs_expires := 0 |} /\
  relay_log (snd (pair P pairingData accounts network s))
  = relay_log s ++ [RelaySubscribe t; call].
Proof.
  intros Hl Hm Hu t call Hsub _.
  destruct (pair_run P pairingData accounts network s l m u Hl Hm Hu Hsub)
    as (s' & Er & _ & _ & Hlog).
  rewrite Er. split; [reflexivity | exact Hlog].
Qed.

(** Every other publish, and every subscribe, is awaited: its rejection
    is the rejection of the operation. *)
Lemma awaited_rejections_propagate (topic : JsString) (s : State)
    (reason : JsString) :
  (forall tx t,
     transaction_objects s !! tx = Some t ->
     relay_answer P (relay_log s)
       (RelayPublish topic
          {| env_id := message_id P (prepared s);
             env_type := MsgTransaction;
             env_body := BodyTransaction (encoded t) |}
          (registered_key s topic)) = Some reason ->
     fst (sendTransaction P topic tx s) = Thrown (TransportFailure reason)) /\
  (forall message,
     relay_answer P (relay_log s)
       (RelayPublish topic
          {| env_id := message_id P (prepared s);
             env_type := MsgAdditionalAccountRequest;
             env_body := BodyAdditionalAccountRequest message |}
          (registered_key s topic)) = Some reason ->
     fst (requestAdditionalAccounts P topic message s)
     = Thrown (TransportFailure reason)) /\
  (forall message,
     relay_answer P (relay_log s)
       (RelayPublish topic
          {| env_id := message_id P (prepared s);
             env_type := MsgTransactionResponse;
             env_body := BodyTransactionResponse message |}
          (registered_key s topic)) = Some reason ->
     fst (sendTransactionResponse P topic message s)
     = Thrown (TransportFailure reason)) /\
  (forall why msg_id,
     relay_answer P (relay_log s)
       (RelayPublish topic
          {| env_id := message_id P (prepared s);
             env_type := MsgRejectPairing;
             env_body := BodyRejected
               {| rej_reason := sanitizeString why; rej_topic := topic;
                  rej_msg_id := msg_id |} |}
          (registered_key s topic)) = Some reason ->
     fst (reject P topic why msg_id s) = Thrown (TransportFailure reason)) /\
  (forall pubKey msg_id,
     relay_answer P (relay_log s)
       (RelayPublish topic
          {| env_id := message_id P (prepared s);
             env_type := MsgAcknowledge;
             env_body := BodyAcknowledge
               {| ack_result := true; ack_topic := topic;
                  ack_msg_id := msg_id |} |}
          (Some pubKey)) = Some reason ->
     fst (acknowledge P topic pubKey msg_id s)
     = Thrown (TransportFailure reason)) /\
  (relay_answer P (relay_log s)
     (RelaySubscribe (connected_topic P s topic)) = Some reason ->
   fst (connect P (Some topic) None s) = Thrown (TransportFailure reason)).
Proof.
  repeat apply conj.
  - intros tx t Ht Hr. rewrite (sendTransaction_run P topic tx t s Ht).
    cbv zeta. now rewrite Hr.
  - intros message Hr. unfold requestAdditionalAccounts.
    mstep I. mstep I.
    erewrite bind_thrown by (apply relay_await_rejects; exact Hr).
    reflexivity.
  - intros message Hr. unfold sendTransactionResponse.
    mstep I. mstep I.
    erewrite bind_thrown by (apply relay_await_rejects; exact Hr).
    reflexivity.
  - intros why msg_id Hr. unfold reject.
    mstep I. mstep I.
    erewrite relay_await_rejects by exact Hr. reflexivity.
  - intros pubKey msg_id Hr. unfold acknowledge.
    mstep I. erewrite relay_await_rejects by exact Hr. reflexivity.
  - intros Hr. rewrite connect_run. cbv zeta. now rewrite Hr.
Qed.

End Claims.

(** ** Instances *)



Example sample_transaction_twice :
  tx_byteArray (encoded sample_transaction) = Text (js "AQID") /\
  tx_byteArray (encoded (encoded sample_transaction)) = Text (js "QVFJRA==").
Proof. split; reflexivity. Qed.

Lemma init_overwrites_url_witness :
  metadata_objects (snd (init sample_platform 0 None sample_session)) !! 0
  = Some {| md_name := md_name sample_metadata;
            md_description := md_description sample_metadata;
            md_icon := md_icon sample_metadata;
            md_url := Some (js "https://dapp.example");
            md_publicKey :=
              Some (base64_encode
                      (getPublicKey sample_platform
                         (base64_decode
                            (base64_encode
                               (generatePrivateKey sample_platform
                                  (drawn sample_session)))))) |} /\
  metadata (snd (init sample_platform 0 None sample_session)) = Some 0.
Proof.
  apply (init_overwrites_url sample_platform 0 None sample_metadata
           (js "https://dapp.example") sample_session).
  - reflexivity.
  - reflexivity.
Defined.



Lemma pair_ignores_publish_rejection_witness :
  fst (pair offline_platform sample_pairing [js "0.0.123"] (js "testnet")
         sample_session)
  = Returned {| cs_topic := js "t1"; cs_expires := 0 |} /\
  relay_log (snd (pair offline_platform sample_pairing [js "0.0.123"]
                    (js "testnet") sample_session))
  = relay_log sample_session
    ++ [RelaySubscribe (js "t1");
        RelayPublish (js "t1")
          (approval offline_platform sample_session sample_metadata
             sample_pairing [js "0.0.123"] (js "testnet"))
          (Some (js "cHVibGlj"))].
Proof.
  apply (pair_ignores_publish_rejection offline_platform sample_pairing
           [js "0.0.123"] (js "testnet") sample_session 0 sample_metadata
           (js "dapp.example") (js "offline")).
  - reflexivity.
  - reflexivity.
  - reflexivity.
  - reflexivity.
  - reflexivity.
Defined.

(** ** Runs *)

(** [init], [connect()] and [generatePairingString] on a new instance,
    then [decodePairingString]: the decoded record holds the sanitized
    metadata (with the page's origin as url and the derived public key),
    the generated topic, the network and the flag. *)
Example pairing_string_of_new_session :
  let s0 := new_HashConnect {[ 0 := fresh_metadata ]} ∅ in
  let s1 := snd (init sample_platform 0 None s0) in
  let r2 := connect sample_platform None None s1 in
  let r3 :=
    match fst r2 with
    | Returned state =>
        fst (generatePairingString state (js "testnet") false (snd r2))
    | Thrown e => Thrown e
    end in
  fst r2 = Returned {| cs_topic := js "topic-1"; cs_expires := 0 |} /\
  match r3 with
  | Returned token =>
      decodePairingString token
      = Returned
          (pairing_to_json
             {| pd_metadata :=
                  {| md_name := js "Tom &#38; Co";
                     md_description := js "A sample app.";
                     md_icon := js "https://dapp.example/icon.png";
                     md_url := Some (js "https&#58;&#47;&#47;dapp.example");
                     md_publicKey := Some (js "/v38/w==") |};
                pd_topic := js "topic-1";
                pd_network := js "testnet";
                pd_multiAccount := false |})
  | Thrown _ => False
  end.
Proof. vm_compute. split; reflexivity. Qed.

(** The base64 decoder is lenient: a token with a stray space and without
    padding decodes like the padded one. *)
Example decode_is_lenient :
  decodePairingString (js " e30") = Returned (JObject []) /\
  decodePairingString (js "!") = Thrown SyntaxError /\
  decodePairingString (js "bnVsbA==") = Returned JNull.
Proof. repeat split. Qed.

Example codec_samples :
  base64_encode (js "Hello, world!") = js "SGVsbG8sIHdvcmxkIQ==" /\
  base64_decode (js "SGVsbG8sIHdvcmxkIQ==") = js "Hello, world!" /\
  utf8_encode [72; 233; 8364; 55357; 56832]%N
  = [72; 195; 169; 226; 130; 172; 240; 159; 152; 128]%N /\
  utf8_decode [72; 195; 169; 226; 130; 172; 240; 159; 152; 128]%N
  = [72; 233; 8364; 55357; 56832]%N /\
  utf8_encode [55357]%N = utf8_replacement /\
  utf8_decode [226; 130; 65]%N = [65533; 65]%N.
Proof. repeat split. Qed.

Example json_samples :
  JSON_parse (js " [1, -2.5e+3, true, null, {}, 0.5E7] ")
  = Some (JArray [JNumber (js "1"); JNumber (js "-2.5e+3"); JBool true;
                  JNull; JObject []; JNumber (js "0.5E7")]) /\
  JSON_parse (js "01") = None /\
  JSON_parse (js "[1,]") = None /\
  JSON_parse (js "{} x") = None /\
  JSON_stringify (JObject [(js "a", JString [9; 55357]%N)])
  = [123; 34; 97; 34; 58; 34; 92; 116; 92; 117; 100; 56; 51; 100; 34; 125]%N.
Proof. repeat split. Qed.

(* ===================================================================== *)
(** * Part III: further properties of the class                           *)
(* ===================================================================== *)

(** ** Sanitizer *)

Lemma uint_units_digits d :
  Forall (fun c => (48 <= c <= 57)%N) (uint_units d).
Proof. induction d; simpl; constructor; auto; lia. Qed.

Lemma uint_units_inj d d' : uint_units d = uint_units d' -> d = d'.
Proof.
  revert d'. induction d; intros d'; destruct d'; simpl; intros H;
    try discriminate H; try reflexivity;
    injection H as H; f_equal; now apply IHd.
Qed.

Lemma number_to_string_inj n n' :
  number_to_string n = number_to_string n' -> n = n'.
Proof.
  intros H. apply DecimalN.Unsigned.to_uint_inj. now apply uint_units_inj.
Qed.

Lemma digits_before_semicolon ds1 : forall ds2 r1 r2,
  Forall (fun c => (48 <= c <= 57)%N) ds1 ->
  Forall (fun c => (48 <= c <= 57)%N) ds2 ->
  ds1 ++ 59%N :: r1 = ds2 ++ 59%N :: r2 -> ds1 = ds2 /\ r1 = r2.
Proof.
  induction ds1 as [|d ds1 IH]; intros [|e ds2] r1 r2 H1 H2 E;
    cbn [app] in E.
  - injection E as ->. auto.
  - injection E as <- _. inversion_clear H2. lia.
  - injection E as -> _. inversion_clear H1. lia.
  - injection E as -> E. inversion_clear H1. inversion_clear H2.
    destruct (IH ds2 r1 r2) as [-> ->]; auto.
Qed.

Lemma digit_is_safe c : (48 <= c <= 57)%N -> in_safe_class c = true.
Proof.
  intros Hc. unfold in_safe_class, is_word_char.
  replace (48 <=? c)%N with true by (symmetry; apply N.leb_le; lia).
  replace (c <=? 57)%N with true by (symmetry; apply N.leb_le; lia).
  reflexivity.
Qed.

(** X1: the sanitizer loses nothing: two strings with the same sanitized
    text are the same string. *)
Theorem sanitize_injective (a b : JsString) :
  sanitizeString a = sanitizeString b -> a = b.
Proof.
  revert b. induction a as [|c a IH]; intros [|d b] H.
  - reflexivity.
  - rewrite sanitize_cons in H. exfalso.
    destruct (in_safe_class d); [discriminate H|].
    unfold char_reference in H. discriminate H.
  - rewrite sanitize_cons in H. exfalso.
    destruct (in_safe_class c); [discriminate H|].
    unfold char_reference in H. discriminate H.
  - rewrite !sanitize_cons in H.
    destruct (in_safe_class c) eqn:Ec, (in_safe_class d) eqn:Ed.
    + injection H as -> H. f_equal. now apply IH.
    + exfalso. unfold char_reference in H. injection H as -> _.
      discriminate Ec.
    + exfalso. unfold char_reference in H. injection H as <- _.
      discriminate Ed.
    + unfold char_reference in H. rewrite <- !app_assoc in H.
      injection H as H.
      apply digits_before_semicolon in H as [Hn Hr];
        try apply uint_units_digits.
      apply number_to_string_inj in Hn. subst d. f_equal. now apply IH.
Qed.

Lemma sanitize_injective_witness : js "a&b" = js "a&b".
Proof. apply (sanitize_injective (js "a&b") (js "a&b")). reflexivity. Defined.

Lemma sanitized_units s :
  Forall (fun c => in_safe_class c = true \/ c = 38%N \/ c = 35%N \/ c = 59%N)
    (sanitizeString s).
Proof.
  induction s as [|c s IH]; [constructor|].
  rewrite sanitize_cons. apply Forall_app. split; [|exact IH].
  destruct (in_safe_class c) eqn:E;
    [apply List.Forall_cons; [now left | constructor]|].
  unfold char_reference. cbn [js List.map list_ascii_of_string app].
  apply List.Forall_cons; [right; left; reflexivity|].
  apply List.Forall_cons; [right; right; left; reflexivity|].
  apply Forall_app. split.
  - eapply Forall_impl; [apply uint_units_digits|]. cbv beta.
    intros d Hd. left. now apply digit_is_safe.
  - apply List.Forall_cons; [|constructor].
    right. right. right. reflexivity.
Qed.

Lemma sanitized_no_markup s c :
  In c (sanitizeString s) -> c <> 60%N /\ c <> 62%N /\ c <> 34%N /\ c <> 39%N.
Proof.
  intros Hc.
  apply (proj1 (List.Forall_forall _ _) (sanitized_units s)) in Hc.
  destruct Hc as [Hc | [-> | [-> | ->] ] ];
    repeat split; try discriminate; intros ->; discriminate Hc.
Qed.

(** X2: whatever the input, the sanitized text holds only word
    characters, dots, spaces and the three units [&], [#], [;] of the
    references; in particular no angle bracket (60, 62) and no quote
    (34, 39) is left. *)
Theorem sanitize_output_alphabet (s : JsString) :
  Forall (fun c => in_safe_class c = true \/ c = 38%N \/ c = 35%N \/ c = 59%N)
    (sanitizeString s) /\
  forall c, In c (sanitizeString s) ->
            c <> 60%N /\ c <> 62%N /\ c <> 34%N /\ c <> 39%N.
Proof. split; [apply sanitized_units | apply sanitized_no_markup]. Qed.

Lemma number_to_string_short c :
  (c < 65536)%N -> length (number_to_string c) <= 5.
Proof.
  intros Hc.
  pose (f := fun c => Nat.leb (length (number_to_string c)) 5).
  assert (H : f c = true).
  { apply (all_below_spec f (N.to_nat 65536) 0);
      [vm_compute; reflexivity | lia]. }
  now apply Nat.leb_le in H.
Qed.

(** X3: sanitizing never shortens a string and makes it at most eight
    times as long (the longest reference is [&#65535;]). *)
Theorem sanitize_length_bounds (s : JsString) :
  js_wf s ->
  length s <= length (sanitizeString s) <= 8 * length s.
Proof.
  intros Hwf. split; [apply sanitize_length|].
  induction Hwf as [|c s Hc _ IH]; [reflexivity|].
  rewrite sanitize_cons, length_app. cbn [length].
  destruct (in_safe_class c); cbn [length]; [lia|].
  unfold char_reference. rewrite !length_app.
  pose proof (number_to_string_short c Hc).
  change (length (js "&#")) with 2. change (length (js ";")) with 1. lia.
Qed.

Lemma sanitize_length_bounds_witness :
  length (js "a<b") <= length (sanitizeString (js "a<b"))
  <= 8 * length (js "a<b").
Proof.
  apply (sanitize_length_bounds (js "a<b")). now apply js_wf_check.
Defined.

(** ** What the operations leave alone *)

Section KeepsRules.

Context (R : State -> State -> Prop).
Context (R_refl : forall s, R s s).
Context (R_trans : forall s1 s2 s3, R s1 s2 -> R s2 s3 -> R s1 s3).

Lemma keeps_bind {A B} (m : M A) (k : A -> M B) :
  keeps R m -> (forall a, keeps R (k a)) -> keeps R (bind m k).
Proof.
  intros Hm Hk s. unfold bind. specialize (Hm s).
  destruct (m s) as [[a|e] s']; cbn [snd] in *; [|exact Hm].
  eapply R_trans; [exact Hm | apply Hk].
Qed.

Lemma keeps_ret {A} (a : A) : keeps R (ret a).
Proof. intros s. apply R_refl. Qed.

Lemma keeps_throw {A} e : keeps R (@throw A e).
Proof. intros s. apply R_refl. Qed.

Lemma keeps_gets {A} (f : State -> A) : keeps R (gets f).
Proof. intros s. apply R_refl. Qed.

Lemma keeps_modify f : (forall s, R s (f s)) -> keeps R (modify f).
Proof. intros H s. apply H. Qed.

Lemma keeps_read_metadata r : keeps R (read_metadata r).
Proof.
  intros s. unfold read_metadata. destruct r as [l|]; [|apply R_refl].
  destruct (metadata_objects s !! l); apply R_refl.
Qed.

Lemma keeps_read_transaction r : keeps R (read_transaction r).
Proof.
  intros s. unfold read_transaction.
  destruct (transaction_objects s !! r); apply R_refl.
Qed.

Lemma keeps_update_metadata r f :
  (forall h s, R s (set_metadata_objects h s)) ->
  keeps R (update_metadata r f).
Proof.
  intros H. unfold update_metadata. apply keeps_bind.
  - apply keeps_read_metadata.
  - intros m. destruct r; [apply keeps_modify; intros; apply H
                          | apply keeps_throw].
Qed.

Lemma keeps_sanitize_in_place network :
  (forall h s, R s (set_metadata_objects h s)) ->
  keeps R (sanitize_in_place network).
Proof.
  intros H. unfold sanitize_in_place.
  apply keeps_bind; [apply keeps_gets | intros r].
  apply keeps_bind; [apply keeps_read_metadata | intros m1].
  apply keeps_bind; [now apply keeps_update_metadata | intros _].
  apply keeps_bind; [apply keeps_read_metadata | intros m2].
  apply keeps_bind; [now apply keeps_update_metadata | intros _].
  apply keeps_bind; [apply keeps_read_metadata | intros m3].
  apply keeps_bind; [| intros url].
  - unfold sanitize_optional.
    destruct (md_url m3); [apply keeps_ret | apply keeps_throw].
  - apply keeps_bind; [now apply keeps_update_metadata | intros _].
    apply keeps_ret.
Qed.

Context (P : Platform).

Lemma keeps_relay_await c :
  (forall l s, R s (set_relay_log l s)) -> keeps R (relay_await P c).
Proof.
  intros H s. unfold relay_await.
  destruct (relay_answer P (relay_log s) c); apply H.
Qed.

Lemma keeps_relay_call c :
  (forall l s, R s (set_relay_log l s)) -> keeps R (relay_call c).
Proof. intros H. apply keeps_modify. intros s. apply H. Qed.

Lemma keeps_prepareSimpleMessage type body :
  (forall n s, R s (set_prepared n s)) ->
  keeps R (prepareSimpleMessage P type body).
Proof. intros H s. apply H. Qed.

Lemma keeps_connect topic :
  (forall l s, R s (set_relay_log l s)) ->
  (forall n s, R s (set_drawn n s)) ->
  keeps R (connect P topic None).
Proof.
  intros Hlog Hdrawn. unfold connect.
  apply keeps_bind; [|intros t; apply keeps_bind; [apply keeps_ret|]].
  - destruct (falsy topic); [intros s; apply Hdrawn | apply keeps_ret].
  - intros _. apply keeps_bind; [now apply keeps_relay_await|].
    intros _. apply keeps_ret.
Qed.

End KeepsRules.

Lemma same_session_refl s : same_session s s.
Proof. repeat split. Qed.

Lemma same_session_trans s1 s2 s3 :
  same_session s1 s2 -> same_session s2 s3 -> same_session s1 s3.
Proof.
  unfold same_session. intros (A1 & A2 & A3 & A4 & A5) (B1 & B2 & B3 & B4 & B5).
  repeat split; congruence.
Qed.

Lemma registry_but_refl topic s : registry_but topic s s.
Proof. intros t _. reflexivity. Qed.

Lemma registry_but_trans topic s1 s2 s3 :
  registry_but topic s1 s2 -> registry_but topic s2 s3 ->
  registry_but topic s1 s3.
Proof. intros H1 H2 t Ht. rewrite (H2 t Ht). now apply H1. Qed.

Ltac session_kept := intros; unfold same_session; repeat split.

Ltac keeps_session :=
  cbv zeta;
  repeat match goal with
  | |- keeps _ (bind _ _) =>
      apply (keeps_bind _ same_session_trans); [| intros ?]
  | |- keeps _ (ret _) => apply (keeps_ret _ same_session_refl)
  | |- keeps _ (gets _) => apply (keeps_gets _ same_session_refl)
  | |- keeps _ (read_transaction _) =>
      apply (keeps_read_transaction _ same_session_refl)
  | |- keeps _ (modify _) => apply keeps_modify; session_kept
  | |- keeps _ (relay_await _ _) => apply keeps_relay_await; session_kept
  | |- keeps _ (prepareSimpleMessage _ _ _) =>
      apply keeps_prepareSimpleMessage; session_kept
  end.

(** X4: none of the send operations changes the session: whether the
    publish resolves or rejects, [sendTransaction],
    [requestAdditionalAccounts], [sendAdditionalAccounts],
    [sendTransactionResponse], [reject] and [acknowledge] leave
    [this.metadata], the key registry, the private key and the metadata
    object as they were, and draw no random value. *)
Theorem send_operations_keep_session (P : Platform) (topic : JsString)
    (s : State) :
  (forall tx, same_session s (snd (sendTransaction P topic tx s))) /\
  (forall message,
     same_session s (snd (requestAdditionalAccounts P topic message s))) /\
  (forall message,
     same_session s (snd (sendAdditionalAccounts P topic message s))) /\
  (forall message,
     same_session s (snd (sendTransactionResponse P topic message s))) /\
  (forall reason msg_id,
     same_session s (snd (reject P topic reason msg_id s))) /\
  (forall pubKey msg_id,
     same_session s (snd (acknowledge P topic pubKey msg_id s))).
Proof.
  repeat apply conj; intros.
  - assert (K : keeps same_session (sendTransaction P topic tx))
      by (unfold sendTransaction; keeps_session).
    apply K.
  - assert (K : keeps same_session (requestAdditionalAccounts P topic message))
      by (unfold requestAdditionalAccounts; keeps_session).
    apply K.
  - assert (K : keeps same_session (sendAdditionalAccounts P topic message))
      by (unfold sendAdditionalAccounts; keeps_session).
    apply K.
  - assert (K : keeps same_session (sendTransactionResponse P topic message))
      by (unfold sendTransactionResponse; keeps_session).
    apply K.
  - assert (K : keeps same_session (reject P topic reason msg_id))
      by (unfold reject; keeps_session).
    apply K.
  - assert (K : keeps same_session (acknowledge P topic pubKey msg_id))
      by (unfold acknowledge; keeps_session).
    apply K.
Qed.

(** ** [connect] and [pair] *)

Section ConnectAndPair.

Context (P : Platform).

(** [connect] in full: the topic it settles on, the registration, the
    subscribe and the outcome. *)
Lemma connect_effects topic md s :
  let t := if falsy topic then createRandomTopicId P (drawn s)
           else default [] topic in
  let s1 := if falsy topic then set_drawn (S (drawn s)) s else s in
  let s2 := match md with
            | Some m => set_publicKeys (<[t := md_publicKey m]> (publicKeys s)) s1
            | None => s1
            end in
  connect P topic md s
  = (match relay_answer P (relay_log s) (RelaySubscribe t) with
     | None => Returned {| cs_topic := t; cs_expires := 0 |}
     | Some reason => Thrown (TransportFailure reason)
     end, set_relay_log (relay_log s ++ [RelaySubscribe t]) s2).
Proof.
  intros t s1 s2. unfold connect.
  assert (E : (if falsy topic
               then fun s0 => (Returned (createRandomTopicId P (drawn s0)),
                               set_drawn (S (drawn s0)) s0)
               else ret (default [] topic)) s = (Returned t, s1))
    by (subst t s1; destruct (falsy topic); reflexivity).
  rewrite (bind_returned _ _ _ _ _ E).
  assert (E2 : match md with
               | Some m =>
                   modify (fun s0 => set_publicKeys
                             (<[t := md_publicKey m]> (publicKeys s0)) s0)
               | None => ret tt
               end s1 = (Returned tt, s2)).
  { subst s2 s1. destruct md; [|reflexivity].
    destruct (falsy topic); reflexivity. }
  rewrite (bind_returned _ _ _ _ _ E2). cbn [cs_topic].
  assert (Hlog : relay_log s2 = relay_log s)
    by (subst s2 s1; destruct md, (falsy topic); reflexivity).
  unfold relay_await, bind, ret. rewrite Hlog.
  destruct (relay_answer P (relay_log s) (RelaySubscribe t)); reflexivity.
Qed.


(** X6: [connect()] without a topic (omitted, or the empty string) takes
    one fresh id from [createRandomTopicId], subscribes to it, returns it
    with [expires] 0, and registers a supplied counterparty key under
    that generated topic. *)
Theorem connect_generates_topic (topic : option JsString)
    (md : option Metadata) (s : State) :
  falsy topic = true ->
  let t := createRandomTopicId P (drawn s) in
  let r := connect P topic md s in
  relay_log (snd r) = relay_log s ++ [RelaySubscribe t] /\
  drawn (snd r) = S (drawn s) /\
  fst r = match relay_answer P (relay_log s) (RelaySubscribe t) with
          | None => Returned {| cs_topic := t; cs_expires := 0 |}
          | Some reason => Thrown (TransportFailure reason)
          end /\
  publicKeys (snd r)
  = match md with
    | Some m => <[t := md_publicKey m]> (publicKeys s)
    | None => publicKeys s
    end.
Proof.
  intros Hf t r. subst r. rewrite connect_effects. rewrite Hf.
  fold t. destruct md; repeat split.
Qed.


Lemma registry_but_insert topic k s :
  registry_but topic s (set_publicKeys (<[topic := k]> (publicKeys s)) s).
Proof. intros t Ht. cbn. now rewrite lookup_insert_ne. Qed.

(** X7: whatever happens in [pair] (a subscribe that rejects, a session
    that is not initialized, a metadata object without url), the registry
    is changed at most at [pairingData.topic]: the key registered for any
    other topic is what it was. *)
Theorem pair_keeps_other_topics (pairingData : PairingData)
    (accounts : list JsString) (network : JsString) (s : State)
    (topic : JsString) :
  topic <> pd_topic pairingData ->
  registered_key (snd (pair P pairingData accounts network s)) topic
  = registered_key s topic.
Proof.
  intros Ht.
  assert (K : keeps (registry_but (pd_topic pairingData))
                (pair P pairingData accounts network)).
  { set (R := registry_but (pd_topic pairingData)).
    assert (Rr : forall s0, R s0 s0) by (intros; apply registry_but_refl).
    assert (Rt : forall s1 s2 s3, R s1 s2 -> R s2 s3 -> R s1 s3)
      by (intros ? ? ?; apply registry_but_trans).
    unfold pair. cbv zeta.
    apply (keeps_bind R Rt);
      [apply (keeps_connect R Rr Rt); intros ? ? t' _; reflexivity
      | intros state].
    apply (keeps_bind R Rt);
      [apply (keeps_sanitize_in_place R Rr Rt); intros ? ? t' _; reflexivity
      | intros network'].
    apply (keeps_bind R Rt);
      [apply keeps_modify; intros; apply registry_but_insert | intros _].
    apply (keeps_bind R Rt); [apply (keeps_gets R Rr) | intros r].
    apply (keeps_bind R Rt); [apply (keeps_read_metadata R Rr) | intros m].
    apply (keeps_bind R Rt);
      [apply keeps_prepareSimpleMessage; intros ? ? t' _; reflexivity
      | intros payload].
    apply (keeps_bind R Rt); [apply (keeps_gets R Rr) | intros key].
    apply (keeps_bind R Rt);
      [apply keeps_relay_call; intros ? ? t' _; reflexivity | intros _].
    apply (keeps_ret R Rr). }
  unfold registered_key. now rewrite (K s topic Ht).
Qed.

End ConnectAndPair.

(** ** Sequences of operations *)

Section Sequences.

Context (P : Platform).


(** X9: [pair] on an instance that was never initialized subscribes to
    the topic and then throws a [TypeError] (line 164 reads a property of
    the undefined [this.metadata]): nothing is registered and nothing is
    published. *)
Theorem pair_before_init (pairingData : PairingData)
    (accounts : list JsString) (network : JsString) (s : State) :
  metadata s = None ->
  let t := connected_topic P s (pd_topic pairingData) in
  relay_answer P (relay_log s) (RelaySubscribe t) = None ->
  fst (pair P pairingData accounts network s) = Thrown TypeError /\
  publicKeys (snd (pair P pairingData accounts network s)) = publicKeys s /\
  relay_log (snd (pair P pairingData accounts network s))
  = relay_log s ++ [RelaySubscribe t].
Proof.
  intros Hnone t Hsub. unfold pair.
  pose proof (connect_run P (pd_topic pairingData) s) as Hc.
  cbv zeta in Hc. fold t in Hc. rewrite Hsub in Hc.
  rewrite (bind_returned _ _ _ _ _ Hc). clear Hc.
  set (s1 := set_relay_log _ _).
  assert (E : sanitize_in_place network s1 = (Thrown TypeError, s1)).
  { unfold sanitize_in_place. mstep I.
    replace (metadata s1) with (@None nat)
      by (subst s1; destruct (pd_topic pairingData); cbn; now rewrite Hnone).
    reflexivity. }
  rewrite (bind_thrown _ _ _ _ _ E).
  subst s1. destruct (pd_topic pairingData); repeat split.
Qed.




End Sequences.

(** ** [init] *)

Section Init.

Context (P : Platform).

(** [init] up to line 66: [this.metadata], the key and the stamped
    public key. *)
Lemma init_prefix md privKey m s :
  metadata_objects s !! md = Some m ->
  let key := if falsy privKey
             then base64_encode (generatePrivateKey P (drawn s))
             else default [] privKey in
  let s1 := if falsy privKey
            then set_drawn (S (drawn s)) (set_metadata (Some md) s)
            else set_metadata (Some md) s in
  let s3 := set_metadata_objects
              (<[md := with_publicKey
                         (Some (base64_encode
                                  (getPublicKey P (base64_decode key)))) m]>
                 (metadata_objects s))
              (set_privateKey (Some key) s1) in
  init P md privKey s
  = (match window P with
     | WindowUndeclared => throw ReferenceError
     | WindowFalsy => ret tt
     | WindowObject origin =>
         this_metadata <- gets metadata ;;
         update_metadata this_metadata (with_url (Some origin))
     end ;;;
     relay_await P RelayInit ;;;
     relay_call (RelayAddDecryptionKey key) ;;;
     ret {| id_privKey := key |})%hc s3.
Proof.
  intros Hm key s1 s3. unfold init. mstep I.
  assert (Ek : (if falsy privKey then generateEncryptionKeys P
                else ret (default [] privKey)) (set_metadata (Some md) s)
               = (Returned key, s1))
    by (subst key s1; destruct (falsy privKey); reflexivity).
  rewrite (bind_returned _ _ _ _ _ Ek). mstep I.
  assert (Hobj : metadata_objects (set_privateKey (Some key) s1)
                 = metadata_objects s)
    by (subst s1; destruct (falsy privKey); reflexivity).
  erewrite bind_returned
    by (apply update_metadata_run; rewrite Hobj; exact Hm).
  rewrite Hobj. reflexivity.
Qed.

Lemma window_step origin s md m :
  metadata s = Some md -> metadata_objects s !! md = Some m ->
  (this_metadata <- gets metadata ;;
   update_metadata this_metadata (with_url (Some origin)))%hc s
  = (Returned tt,
     set_metadata_objects
       (<[md := with_url (Some origin) m]> (metadata_objects s)) s).
Proof.
  intros Hmd Hm. erewrite bind_returned by reflexivity.
  replace (metadata s) with (Some md) by (symmetry; exact Hmd).
  now apply update_metadata_run.
Qed.

(** X13: [init] with a non-empty private key resumes with that key: no
    key is generated, the key is stored and returned unchanged, and, once
    the relay is initialized, it is registered with the relay for
    decryption, in that order. *)
Theorem init_resumes_with_supplied_key (md : nat) (k : JsString)
    (m : Metadata) (origin : JsString) (s : State) :
  k <> [] ->
  window P = WindowObject origin ->
  metadata_objects s !! md = Some m ->
  relay_answer P (relay_log s) RelayInit = None ->
  let r := init P md (Some k) s in
  fst r = Returned {| id_privKey := k |} /\
  privateKey (snd r) = Some k /\
  drawn (snd r) = drawn s /\
  relay_log (snd r) = relay_log s ++ [RelayInit; RelayAddDecryptionKey k] /\
  publicKeys (snd r) = publicKeys s.
Proof.
  intros Hk Hw Hm Hrelay r. subst r.
  rewrite (init_prefix md (Some k) m s Hm). rewrite Hw.
  destruct k as [|c k]; [congruence|]. cbn [falsy default].
  erewrite bind_returned
    by (apply window_step; [reflexivity | cbn; apply lookup_insert_eq]).
  erewrite bind_returned by (apply relay_await_resolves; exact Hrelay).
  unfold relay_call, modify, ret, bind. cbn.
  rewrite <- app_assoc. repeat split.
Qed.

(** X14: [init] without a private key (omitted, or the empty string)
    generates one: the key returned and stored is the base64 text of the
    generated bytes, and the public key stamped into the caller's
    metadata is derived from exactly those bytes. *)
Theorem init_generates_key (md : nat) (privKey : option JsString)
    (m : Metadata) (origin : JsString) (s : State) :
  falsy privKey = true ->
  Forall is_byte (generatePrivateKey P (drawn s)) ->
  window P = WindowObject origin ->
  metadata_objects s !! md = Some m ->
  relay_answer P (relay_log s) RelayInit = None ->
  let bytes := generatePrivateKey P (drawn s) in
  let r := init P md privKey s in
  fst r = Returned {| id_privKey := base64_encode bytes |} /\
  privateKey (snd r) = Some (base64_encode bytes) /\
  drawn (snd r) = S (drawn s) /\
  (md_publicKey <$> metadata_objects (snd r) !! md)
  = Some (Some (base64_encode (getPublicKey P bytes))) /\
  relay_log (snd r)
  = relay_log s ++ [RelayInit; RelayAddDecryptionKey (base64_encode bytes)].
Proof.
  intros Hf Hb Hw Hm Hrelay bytes r. subst r.
  rewrite (init_prefix md privKey m s Hm). rewrite Hw, Hf.
  fold bytes. rewrite (base64_roundtrip bytes Hb).
  erewrite bind_returned
    by (apply window_step; [reflexivity | cbn; apply lookup_insert_eq]).
  erewrite bind_returned by (apply relay_await_resolves; exact Hrelay).
  unfold relay_call, modify, ret, bind. cbn.
  rewrite lookup_insert_eq, <- app_assoc. repeat split.
Qed.

(** X15: where no [window] global is declared, [init] throws a
    [ReferenceError] at line 68: the relay is never called, although the
    private key is already stored and the public key already stamped
    into the caller's metadata. *)
Theorem init_without_window (md : nat) (privKey : option JsString)
    (m : Metadata) (s : State) :
  window P = WindowUndeclared ->
  metadata_objects s !! md = Some m ->
  let key := if falsy privKey
             then base64_encode (generatePrivateKey P (drawn s))
             else default [] privKey in
  let r := init P md privKey s in
  fst r = Thrown ReferenceError /\
  relay_log (snd r) = relay_log s /\
  privateKey (snd r) = Some key /\
  metadata_objects (snd r) !! md
  = Some (with_publicKey
            (Some (base64_encode (getPublicKey P (base64_decode key)))) m).
Proof.
  intros Hw Hm key r. subst r.
  rewrite (init_prefix md privKey m s Hm). rewrite Hw. fold key.
  erewrite bind_thrown by reflexivity.
  cbn. rewrite lookup_insert_eq.
  destruct (falsy privKey); repeat split.
Qed.

(** X16: when the relay fails to initialize, [init] rejects with that
    failure and the private key is never registered with the relay for
    decryption, although it is stored and the caller's metadata already
    holds the new public key and url. *)
Theorem init_relay_rejects (md : nat) (privKey : option JsString)
    (m : Metadata) (origin reason : JsString) (s : State) :
  window P = WindowObject origin ->
  metadata_objects s !! md = Some m ->
  relay_answer P (relay_log s) RelayInit = Some reason ->
  let key := if falsy privKey
             then base64_encode (generatePrivateKey P (drawn s))
             else default [] privKey in
  let r := init P md privKey s in
  fst r = Thrown (TransportFailure reason) /\
  relay_log (snd r) = relay_log s ++ [RelayInit] /\
  privateKey (snd r) = Some key /\
  metadata_objects (snd r) !! md
  = Some (with_url (Some origin)
            (with_publicKey
               (Some (base64_encode (getPublicKey P (base64_decode key))))
               m)).
Proof.
  intros Hw Hm Hrelay key r. subst r.
  rewrite (init_prefix md privKey m s Hm). rewrite Hw. fold key.
  assert (Hlog : forall s0, relay_log
            (if falsy privKey
             then set_drawn (S (drawn s)) (set_metadata (Some md) s0)
             else set_metadata (Some md) s0) = relay_log s0)
    by (intros; destruct (falsy privKey); reflexivity).
  assert (Hmd : metadata
            (if falsy privKey
             then set_drawn (S (drawn s)) (set_metadata (Some md) s)
             else set_metadata (Some md) s) = Some md)
    by (destruct (falsy privKey); reflexivity).
  erewrite bind_returned
    by (apply window_step; [exact Hmd | cbn; apply lookup_insert_eq]).
  erewrite bind_thrown
    by (apply relay_await_rejects; cbn; rewrite Hlog; exact Hrelay).
  cbn. rewrite lookup_insert_eq, Hlog.
  destruct (falsy privKey); repeat split.
Qed.

End Init.

(** ** Pairing strings *)

Lemma sanitize_wf s : js_wf s -> js_wf (sanitizeString s).
Proof.
  intros Hwf. unfold js_wf.
  pose proof (sanitized_units s) as Hu.
  induction Hwf as [|c s Hc _ IH]; [constructor|].
  rewrite sanitize_cons in *. apply Forall_app in Hu as [_ Hu].
  apply Forall_app. split; [|now apply IH].
  destruct (in_safe_class c); [now constructor|].
  unfold char_reference. cbn [js List.map list_ascii_of_string app].
  apply List.Forall_cons; [reflexivity|].
  apply List.Forall_cons; [reflexivity|].
  apply Forall_app. split.
  - eapply Forall_impl; [apply uint_units_digits|]. cbv beta. intros; lia.
  - apply List.Forall_cons; [reflexivity | constructor].
Qed.

Lemma sanitized_wf m : Metadata_wf m -> Metadata_wf (sanitized m).
Proof.
  intros (Hn & Hd & Hi & Hu & Hk). unfold Metadata_wf, sanitized. cbn.
  repeat apply conj; try (now apply sanitize_wf); try assumption.
  intros u. destruct (md_url m) as [v|]; [|discriminate].
  cbn. intros [= <-]. apply sanitize_wf. now apply Hu.
Qed.

(** X17: on an initialized session whose metadata has a url,
    [generatePairingString] sanitizes the caller's metadata object in
    place and returns a token that [decodePairingString] decodes to the
    record of the sanitized metadata, the state's topic, the sanitized
    network and the flag, whatever characters the fields hold. *)
Theorem generatePairingString_decodes_sanitized (state : ConnectionState)
    (network : JsString) (multiAccount : bool) (s : State) (l : nat)
    (m : Metadata) (u : JsString) :
  metadata s = Some l -> metadata_objects s !! l = Some m ->
  md_url m = Some u ->
  Metadata_wf m -> js_wf (cs_topic state) -> js_wf network ->
  let data := {| pd_metadata := sanitized m;
                 pd_topic := cs_topic state;
                 pd_network := sanitizeString network;
                 pd_multiAccount := multiAccount |} in
  exists token,
    generatePairingString state network multiAccount s
    = (Returned token,
       set_metadata_objects (<[l := sanitized m]> (metadata_objects s)) s) /\
    decodePairingString token = Returned (pairing_to_json data) /\
    as_PairingData (pairing_to_json data) = Some data.
Proof.
  intros Hl Hm Hu Hwf Ht Hn data.
  eexists. split; [|split].
  - unfold generatePairingString.
    rewrite (bind_returned _ _ _ _ _
               (sanitize_in_place_url s l m u network Hl Hm Hu)).
    mstep I. cbn [metadata set_metadata_objects]. rewrite Hl.
    erewrite bind_returned by (apply read_metadata_run, lookup_updated).
    reflexivity.
  - apply decode_token, pairing_json_ok.
    split; [now apply sanitized_wf|]. split; [exact Ht|].
    now apply sanitize_wf.
  - apply as_PairingData_to_json.
Qed.

Lemma base64_char_unit i : is_base64_unit (base64_char i) = true.
Proof.
  unfold base64_char.
  destruct (N.ltb_spec i 26);
    [unfold is_base64_unit; settle_tests; reflexivity|].
  destruct (N.ltb_spec i 52);
    [unfold is_base64_unit; settle_tests; reflexivity|].
  destruct (N.ltb_spec i 62);
    [unfold is_base64_unit; settle_tests; reflexivity|].
  destruct (i =? 62)%N; reflexivity.
Qed.

Lemma base64_encode_shape bs :
  Forall (fun c => is_base64_unit c = true \/ c = 61%N) (base64_encode bs) /\
  exists k, length (base64_encode bs) = 4 * k.
Proof.
  induction bs as [|a|a b|a b c rest [IH [k Hk]]] using list_ind3;
    cbn [base64_encode].
  - split; [constructor | exists 0; reflexivity].
  - split; [|exists 1; reflexivity].
    repeat (apply List.Forall_cons;
            [first [left; apply base64_char_unit | right; reflexivity]|]).
    constructor.
  - split; [|exists 1; reflexivity].
    repeat (apply List.Forall_cons;
            [first [left; apply base64_char_unit | right; reflexivity]|]).
    constructor.
  - split.
    + cbn [app].
      repeat (apply List.Forall_cons; [left; apply base64_char_unit|]).
      exact IH.
    + exists (S k). cbn [app length]. lia.
Qed.

(** X18: every token [generatePairingString] returns is text of the
    base64 alphabet, padded with [=] to a multiple of four units. *)
Theorem pairing_string_is_base64 (state : ConnectionState)
    (network : JsString) (multiAccount : bool) (s s' : State)
    (token : JsString) :
  generatePairingString state network multiAccount s = (Returned token, s') ->
  Forall (fun c => is_base64_unit c = true \/ c = 61%N) token /\
  exists k, length token = 4 * k.
Proof.
  unfold generatePairingString, bind.
  destruct (sanitize_in_place network s) as [[nw|e] s1]; [|discriminate].
  unfold gets.
  destruct (read_metadata (metadata s1) s1) as [[m|e] s2]; [|discriminate].
  unfold ret. intros H.
  apply (f_equal (fun r : Outcome (list N) * State =>
                    match fst r with Returned x => x | Thrown _ => [] end))
    in H.
  cbv beta in H. cbn [fst] in H. rewrite <- H. apply base64_encode_shape.
Qed.

(** X19: [generatePairingString] on an instance that was never
    initialized throws a [TypeError] (line 221 reads a property of the
    undefined [this.metadata]) and changes nothing. *)
Theorem generatePairingString_before_init (state : ConnectionState)
    (network : JsString) (multiAccount : bool) (s : State) :
  metadata s = None ->
  generatePairingString state network multiAccount s = (Thrown TypeError, s).
Proof.
  intros Hnone. unfold generatePairingString, sanitize_in_place.
  erewrite bind_thrown; [reflexivity|].
  mstep I. rewrite Hnone. reflexivity.
Qed.

(** X20: when the metadata object has no url, [generatePairingString]
    throws a [TypeError] at line 224, after lines 221-222 have already
    replaced the description and the name of the caller's object by
    their sanitized text: the failed call is not without effect. *)
Theorem generatePairingString_fails_half_done (state : ConnectionState)
    (network : JsString) (multiAccount : bool) (s : State) (l : nat)
    (m : Metadata) :
  metadata s = Some l -> metadata_objects s !! l = Some m ->
  md_url m = None ->
  let r := generatePairingString state network multiAccount s in
  fst r = Thrown TypeError /\
  metadata_objects (snd r) !! l
  = Some {| md_name := sanitizeString (md_name m);
            md_description := sanitizeString (md_description m);
            md_icon := md_icon m;
            md_url := None;
            md_publicKey := md_publicKey m |}.
Proof.
  intros Hl Hm Hu r. subst r. unfold generatePairingString.
  rewrite (bind_thrown _ _ _ _ _
             (sanitize_in_place_no_url s l m network Hl Hm Hu)).
  cbn. rewrite lookup_insert_eq. unfold with_name, with_description. cbn.
  rewrite Hu. split; reflexivity.
Qed.

(** X21: [generatePairingString] never calls the relay and never touches
    the key registry, the private key or the counters, whether it returns
    or throws; its only effect is on the metadata object. *)
Theorem generatePairingString_is_local (state : ConnectionState)
    (network : JsString) (multiAccount : bool) (s : State) :
  let s' := snd (generatePairingString state network multiAccount s) in
  relay_log s' = relay_log s /\ publicKeys s' = publicKeys s /\
  privateKey s' = privateKey s /\ metadata s' = metadata s /\
  prepared s' = prepared s /\ drawn s' = drawn s /\
  transaction_objects s' = transaction_objects s.
Proof.
  set (R := fun s0 s1 : State =>
    relay_log s1 = relay_log s0 /\ publicKeys s1 = publicKeys s0 /\
    privateKey s1 = privateKey s0 /\ metadata s1 = metadata s0 /\
    prepared s1 = prepared s0 /\ drawn s1 = drawn s0 /\
    transaction_objects s1 = transaction_objects s0).
  assert (Rr : forall s0, R s0 s0) by (intros; repeat split).
  assert (Rt : forall s1 s2 s3, R s1 s2 -> R s2 s3 -> R s1 s3).
  { intros s1 s2 s3 (A1 & A2 & A3 & A4 & A5 & A6 & A7)
      (B1 & B2 & B3 & B4 & B5 & B6 & B7). repeat split; congruence. }
  assert (K : keeps R (generatePairingString state network multiAccount)).
  { unfold generatePairingString.
    apply (keeps_bind R Rt);
      [apply (keeps_sanitize_in_place R Rr Rt); intros; repeat split
      | intros nw].
    apply (keeps_bind R Rt); [apply (keeps_gets R Rr) | intros r].
    apply (keeps_bind R Rt); [apply (keeps_read_metadata R Rr) | intros m].
    apply (keeps_ret R Rr). }
  exact (K s).
Qed.



(** ** Instances of the further properties *)


Lemma connect_generates_topic_witness :
  fst (connect sample_platform None None sample_session)
  = Returned {| cs_topic := js "topic-0"; cs_expires := 0 |}.
Proof.
  pose proof (connect_generates_topic sample_platform None None
                sample_session eq_refl) as H.
  cbv zeta in H. destruct H as (_ & _ & H3 & _). exact H3.
Defined.

Lemma pair_keeps_other_topics_witness :
  registered_key
    (snd (pair sample_platform sample_pairing [js "0.0.123"] (js "testnet")
            sample_session)) (js "t2")
  = registered_key sample_session (js "t2").
Proof.
  apply (pair_keeps_other_topics sample_platform sample_pairing
           [js "0.0.123"] (js "testnet") sample_session (js "t2")).
  discriminate.
Defined.


Lemma pair_before_init_witness :
  fst (pair sample_platform sample_pairing [] (js "testnet")
         (new_HashConnect ∅ ∅))
  = Thrown TypeError.
Proof.
  pose proof (pair_before_init sample_platform sample_pairing []
                (js "testnet") (new_HashConnect ∅ ∅) eq_refl eq_refl) as H.
  destruct H as (H1 & _). exact H1.
Defined.


Lemma init_resumes_with_supplied_key_witness :
  fst (init sample_platform 0 (Some (js "AQID")) sample_session)
  = Returned {| id_privKey := js "AQID" |}.
Proof.
  pose proof (init_resumes_with_supplied_key sample_platform 0 (js "AQID")
                sample_metadata (js "https://dapp.example") sample_session)
    as H.
  cbv zeta in H.
  destruct H as (H1 & _);
    [discriminate | reflexivity | exact sample_metadata_held | reflexivity|].
  exact H1.
Defined.

Lemma sample_key_bytes :
  Forall is_byte (generatePrivateKey sample_platform (drawn sample_session)).
Proof. repeat constructor. Qed.

Lemma init_generates_key_witness :
  (md_publicKey
     <$> metadata_objects
           (snd (init sample_platform 0 (Some []) sample_session)) !! 0)
  = Some (Some (js "/v38/w==")).
Proof.
  pose proof (init_generates_key sample_platform 0 (Some []) sample_metadata
                (js "https://dapp.example") sample_session eq_refl
                sample_key_bytes eq_refl sample_metadata_held eq_refl) as H.
  cbv zeta in H. destruct H as (_ & _ & _ & H4 & _). exact H4.
Defined.

Lemma init_without_window_witness :
  fst (init windowless_platform 0 None sample_session) = Thrown ReferenceError
  /\ relay_log (snd (init windowless_platform 0 None sample_session))
     = relay_log sample_session.
Proof.
  pose proof (init_without_window windowless_platform 0 None sample_metadata
                sample_session eq_refl sample_metadata_held) as H.
  cbv zeta in H. destruct H as (H1 & H2 & _). split; [exact H1 | exact H2].
Defined.

Lemma init_relay_rejects_witness :
  fst (init unreachable_platform 0 None sample_session)
  = Thrown (TransportFailure (js "unreachable")).
Proof.
  pose proof (init_relay_rejects unreachable_platform 0 None sample_metadata
                (js "https://dapp.example") (js "unreachable")
                sample_session eq_refl sample_metadata_held eq_refl) as H.
  cbv zeta in H. destruct H as (H1 & _). exact H1.
Defined.

Lemma fresh_metadata_wf : Metadata_wf fresh_metadata.
Proof.
  unfold Metadata_wf. cbn.
  repeat apply conj; try discriminate; now apply js_wf_check.
Qed.

Lemma generatePairingString_decodes_sanitized_witness :
  let m := with_url (Some (js "https://dapp.example")) fresh_metadata in
  let s := set_metadata_objects {[ 0 := m ]} urlless_session in
  let data := {| pd_metadata := sanitized m;
                 pd_topic := js "t1";
                 pd_network := sanitizeString (js "test<net>");
                 pd_multiAccount := true |} in
  exists token,
    generatePairingString {| cs_topic := js "t1"; cs_expires := 0 |}
      (js "test<net>") true s
    = (Returned token,
       set_metadata_objects (<[0 := sanitized m]> (metadata_objects s)) s) /\
    decodePairingString token = Returned (pairing_to_json data) /\
    as_PairingData (pairing_to_json data) = Some data.
Proof.
  intros m s data.
  apply (generatePairingString_decodes_sanitized
           {| cs_topic := js "t1"; cs_expires := 0 |} (js "test<net>") true
           s 0 m (js "https://dapp.example")).
  - reflexivity.
  - reflexivity.
  - reflexivity.
  - unfold Metadata_wf. cbn.
    repeat apply conj; try discriminate; try (intros ? [= <-]);
      now apply js_wf_check.
  - now apply js_wf_check.
  - now apply js_wf_check.
Defined.

Lemma sample_token :
  generatePairingString {| cs_topic := js "t"; cs_expires := 0 |}
    (js "n") false sample_session
  = (Returned
       (js "eyJtZXRhZGF0YSI6eyJuYW1lIjoiTXkgZEFwcCIsImRlc2NyaXB0aW9uIjoiQSBzYW1wbGUgYXBwLiIsImljb24iOiJodHRwczovL2RhcHAuZXhhbXBsZS9pY29uLnBuZyIsInVybCI6ImRhcHAuZXhhbXBsZSIsInB1YmxpY0tleSI6ImNIVmliR2xqIn0sInRvcGljIjoidCIsIm5ldHdvcmsiOiJuIiwibXVsdGlBY2NvdW50IjpmYWxzZX0="),
     sample_session).
Proof. vm_compute. reflexivity. Qed.

Lemma pairing_string_is_base64_witness :
  exists k,
    length
      (js "eyJtZXRhZGF0YSI6eyJuYW1lIjoiTXkgZEFwcCIsImRlc2NyaXB0aW9uIjoiQSBzYW1wbGUgYXBwLiIsImljb24iOiJodHRwczovL2RhcHAuZXhhbXBsZS9pY29uLnBuZyIsInVybCI6ImRhcHAuZXhhbXBsZSIsInB1YmxpY0tleSI6ImNIVmliR2xqIn0sInRvcGljIjoidCIsIm5ldHdvcmsiOiJuIiwibXVsdGlBY2NvdW50IjpmYWxzZX0=")
    = 4 * k.
Proof.
  exact (proj2 (pairing_string_is_base64 _ _ _ _ _ _ sample_token)).
Defined.

Lemma generatePairingString_before_init_witness :
  generatePairingString {| cs_topic := js "t1"; cs_expires := 0 |}
    (js "testnet") false (new_HashConnect ∅ ∅)
  = (Thrown TypeError, new_HashConnect ∅ ∅).
Proof.
  apply (generatePairingString_before_init
           {| cs_topic := js "t1"; cs_expires := 0 |} (js "testnet") false
           (new_HashConnect ∅ ∅)).
  reflexivity.
Defined.

Lemma generatePairingString_fails_half_done_witness :
  (md_name
     <$> metadata_objects
           (snd (generatePairingString
                   {| cs_topic := js "t1"; cs_expires := 0 |}
                   (js "testnet") false urlless_session)) !! 0)
  = Some (js "Tom &#38; Co").
Proof.
  pose proof (generatePairingString_fails_half_done
                {| cs_topic := js "t1"; cs_expires := 0 |} (js "testnet")
                false urlless_session 0 fresh_metadata eq_refl eq_refl
                eq_refl) as H.
  cbv zeta in H. destruct H as (_ & H2). rewrite H2. reflexivity.
Defined.
